(** * podcasttvviewer: the feed URL validator, the feed cache and the
      episode normalizer of [server.js]

    The development embeds the core of [server.js] and states its
    properties.  JavaScript strings are sequences of UTF-16 code units, so
    a string is a [list N]: [length] is the JavaScript [.length] and
    [firstn] is [.slice(0, n)].  Values of the parsed feed are dynamically
    typed ([JsVal]); an operation that raises a [TypeError] or a
    [RangeError] in JavaScript returns [Throw] here. *)

From Stdlib Require Import NArith ZArith List String Ascii Bool Lia Sorted.
From Stdlib Require Import DecimalString HexadecimalString.
From stdpp Require Import base option list gmap.

Local Open Scope N_scope.

(* ================================================================== *)
(** ** JavaScript strings *)
(* ================================================================== *)

Abbreviation jsstring := (list N).

(** A literal of the source, one code unit per ASCII character. *)
Definition lit (s : string) : jsstring :=
  List.map N_of_ascii (list_ascii_of_string s).

Definition jsEqb (a b : jsstring) : bool := bool_decide (a = b).

(** [String.prototype.toLowerCase] on the ASCII range.  Every pattern the
    server compares a lowered string with is ASCII and has no [k], the
    only ASCII letter that a character outside ASCII lowers to. *)
Definition lowerUnit (c : N) : N :=
  if (65 <=? c) && (c <=? 90) then c + 32 else c.

Definition toLowerCase (s : jsstring) : jsstring := List.map lowerUnit s.

(** [s.startsWith(p)] *)
Fixpoint startsWith (s p : jsstring) {struct p} : bool :=
  match p, s with
  | [], _ => true
  | a :: p', b :: s' => (a =? b) && startsWith s' p'
  | _ :: _, [] => false
  end.

(** [s.endsWith(p)] *)
Definition endsWith (s p : jsstring) : bool :=
  startsWith (rev s) (rev p).

(** [s.includes(p)] *)
Fixpoint includes (s p : jsstring) : bool :=
  startsWith s p ||
  match s with
  | [] => false
  | _ :: s' => includes s' p
  end.

(** [s.split(sep)] for a separator of one code unit. *)
Fixpoint splitOn (sep : N) (s : jsstring) : list jsstring :=
  match s with
  | [] => [[]]
  | c :: s' =>
      if c =? sep then [] :: splitOn sep s'
      else match splitOn sep s' with
           | [] => [[c]]
           | w :: ws => (c :: w) :: ws
           end
  end.

(** No code unit of [s] is [sep]. *)
Definition lacks (sep : N) (s : jsstring) : bool :=
  forallb (fun c => negb (c =? sep)) s.

(** The code units that [\s] matches and that [trim] removes: ECMAScript
    WhiteSpace and LineTerminator. *)
Definition isWhite (c : N) : bool :=
  (9 <=? c) && (c <=? 13) || (c =? 32) || (c =? 160) || (c =? 5760)
  || (8192 <=? c) && (c <=? 8202) || (c =? 8232) || (c =? 8233)
  || (c =? 8239) || (c =? 8287) || (c =? 12288) || (c =? 65279).

Fixpoint trimStart (s : jsstring) : jsstring :=
  match s with
  | c :: s' => if isWhite c then trimStart s' else s
  | [] => []
  end.

Definition trimEnd (s : jsstring) : jsstring := rev (trimStart (rev s)).

(** [s.trim()] *)
Definition trim (s : jsstring) : jsstring := trimEnd (trimStart s).

Definition isDigit (c : N) : bool := (48 <=? c) && (c <=? 57).

Fixpoint digitsValue (acc : N) (s : jsstring) : N :=
  match s with
  | c :: s' => if isDigit c then digitsValue (10 * acc + (c - 48)) s' else acc
  | [] => acc
  end.

(** [parseInt(s, 10)]; [None] is [NaN]. *)
Definition parseInt10 (s : jsstring) : option Z :=
  let t := trimStart s in
  let '(neg, body) :=
    match t with
    | 45 :: r => (true, r)
    | 43 :: r => (false, r)
    | _ => (false, t)
    end in
  match body with
  | c :: _ =>
      if isDigit c then
        let v := Z.of_N (digitsValue 0 body) in
        Some (if neg then (- v)%Z else v)
      else None
  | [] => None
  end.

(** Shortest decimal and lowercase hexadecimal notations of a number. *)
Definition decimal (n : N) : jsstring :=
  lit (DecimalString.NilEmpty.string_of_uint (N.to_uint n)).

Definition hexadecimal (n : N) : jsstring :=
  lit (HexadecimalString.NilEmpty.string_of_uint (N.to_hex_uint n)).

(* ================================================================== *)
(** ** [net.isIP] of the platform *)
(* ================================================================== *)

(** One octet: [25[0-5]|2[0-4]\d|1\d\d|[1-9]?\d]. *)
Definition v4Seg (s : jsstring) : bool :=
  match s with
  | [d] => isDigit d
  | [d1; d2] => (49 <=? d1) && (d1 <=? 57) && isDigit d2
  | [d1; d2; d3] =>
      (d1 =? 49) && isDigit d2 && isDigit d3
      || (d1 =? 50) && (48 <=? d2) && (d2 <=? 52) && isDigit d3
      || (d1 =? 50) && (d2 =? 53) && (48 <=? d3) && (d3 <=? 53)
  | _ => false
  end.

(** [net.isIPv4]: four octets separated by dots. *)
Definition isIPv4 (s : jsstring) : bool :=
  match splitOn 46 s with
  | [a; b; c; d] => v4Seg a && v4Seg b && v4Seg c && v4Seg d
  | _ => false
  end.

Definition isHexDigit (c : N) : bool :=
  isDigit c || (97 <=? c) && (c <=? 102) || (65 <=? c) && (c <=? 70).

(** One group of an IPv6 address: one to four hexadecimal digits. *)
Definition v6Seg (s : jsstring) : bool :=
  match s with
  | [] => false
  | _ => (length s <=? 4)%nat && forallb isHexDigit s
  end.

(** The number of 16-bit groups that a colon-separated run denotes; the
    last element may be a dotted IPv4 address, which stands for two. *)
Fixpoint v6Groups (allowV4 : bool) (gs : list jsstring) : option nat :=
  match gs with
  | [] => Some 0%nat
  | [g] =>
      if v6Seg g then Some 1%nat
      else if allowV4 && isIPv4 g then Some 2%nat
      else None
  | g :: gs' =>
      if v6Seg g then option_map S (v6Groups allowV4 gs') else None
  end.

(** The text before and after the first [::]. *)
Fixpoint splitDoubleColon (s : jsstring) : option (jsstring * jsstring) :=
  match s with
  | 58 :: ((58 :: r) as s') =>
      Some ([], r)
  | c :: s' =>
      match splitDoubleColon s' with
      | Some (a, b) => Some (c :: a, b)
      | None => None
      end
  | [] => None
  end.

Definition v6Side (allowV4 : bool) (s : jsstring) : option nat :=
  match s with
  | [] => Some 0%nat
  | _ => v6Groups allowV4 (splitOn 58 s)
  end.

Definition isIPv6Address (s : jsstring) : bool :=
  match splitDoubleColon s with
  | None =>
      match v6Groups true (splitOn 58 s) with
      | Some n => (n =? 8)%nat
      | None => false
      end
  | Some (l, r) =>
      match v6Side false l, v6Side true r with
      | Some nl, Some nr => (nl + nr <=? 7)%nat
      | _, _ => false
      end
  end.

Definition isZoneUnit (c : N) : bool :=
  isDigit c || (97 <=? c) && (c <=? 122) || (65 <=? c) && (c <=? 90)
  || (c =? 45) || (c =? 46) || (c =? 58).

(** The text before the first [%], and the zone after it if there is
    one. *)
Fixpoint splitZone (s : jsstring) : jsstring * option jsstring :=
  match s with
  | [] => ([], None)
  | c :: s' =>
      if c =? 37 then ([], Some s')
      else let '(a, z) := splitZone s' in (c :: a, z)
  end.

(** [net.isIPv6]: an RFC 4291 address with an optional zone index. *)
Definition isIPv6 (s : jsstring) : bool :=
  match splitZone s with
  | (a, None) => isIPv6Address a
  | (a, Some z) =>
      isIPv6Address a && negb (jsEqb z []) && forallb isZoneUnit z
  end.

(** [net.isIP]: 4, 6 or 0. *)
Definition isIP (s : jsstring) : N :=
  if isIPv4 s then 4 else if isIPv6 s then 6 else 0.

(* ================================================================== *)
(** ** The URL record of the platform ([new URL]) *)
(* ================================================================== *)

(** A host as the URL Standard has it: a domain, an IPv4 address (a
    32-bit number), an IPv6 address (eight 16-bit pieces) or an opaque
    host. *)
Inductive Host :=
| Domain (name : jsstring)
| IPv4Host (address : N)
| IPv6Host (pieces : list N)
| OpaqueHost (name : jsstring).

Record URL := mkURL {
  scheme : jsstring;
  username : jsstring;
  password : jsstring;
  host : option Host;
  port : option N;
  path : jsstring;
  query : option jsstring;
  fragment : option jsstring
}.

(** The IPv4 serializer: four decimal numbers, most significant first. *)
Fixpoint serializeIPv4From (i : nat) (n : N) (output : jsstring) : jsstring :=
  match i with
  | O => output
  | S i' =>
      let output := decimal (n mod 256) ++ output in
      let output := match i' with O => output | _ => lit "." ++ output end in
      serializeIPv4From i' (n / 256) output
  end.

Definition serializeIPv4 (address : N) : jsstring :=
  serializeIPv4From 4 address [].

Fixpoint leadingZeros (ps : list N) : nat :=
  match ps with
  | 0 :: r => S (leadingZeros r)
  | _ => O
  end.

(** The index of the first longest run of two or more zero pieces. *)
Fixpoint compressIndexFrom (i : nat) (ps : list N) (best : option (nat * nat))
  : option nat :=
  match ps with
  | [] => option_map fst best
  | _ :: r =>
      let n := leadingZeros ps in
      let longer :=
        match best with
        | Some (_, m) => (m <? n)%nat
        | None => (1 <? n)%nat
        end in
      compressIndexFrom (S i) r (if longer then Some (i, n) else best)
  end.

Fixpoint serializePiecesFrom (compress : option nat) (i : nat) (ignore0 : bool)
    (ps : list N) : jsstring :=
  match ps with
  | [] => []
  | p :: r =>
      if ignore0 && (p =? 0) then serializePiecesFrom compress (S i) true r
      else if bool_decide (compress = Some i) then
        (match i with O => lit "::" | _ => lit ":" end)
        ++ serializePiecesFrom compress (S i) true r
      else
        hexadecimal p
        ++ (if (i =? 7)%nat then [] else lit ":")
        ++ serializePiecesFrom compress (S i) false r
  end.

Definition serializeIPv6 (pieces : list N) : jsstring :=
  serializePiecesFrom (compressIndexFrom 0 pieces None) 0 false pieces.

(** The host serializer; an IPv6 address is written between brackets. *)
Definition serializeHost (h : Host) : jsstring :=
  match h with
  | Domain name => name
  | IPv4Host address => serializeIPv4 address
  | IPv6Host pieces => lit "[" ++ serializeIPv6 pieces ++ lit "]"
  | OpaqueHost name => name
  end.

(** [url.protocol] *)
Definition protocol (u : URL) : jsstring := scheme u ++ lit ":".

(** [url.hostname] *)
Definition hostname (u : URL) : jsstring :=
  match host u with
  | Some h => serializeHost h
  | None => []
  end.

(** [url.toString()], the URL serializer. *)
Definition toString (u : URL) : jsstring :=
  scheme u ++ lit ":"
  ++ match host u with
     | Some h =>
         lit "//"
         ++ (if jsEqb (username u) [] && jsEqb (password u) [] then []
             else username u
                  ++ (if jsEqb (password u) [] then []
                      else lit ":" ++ password u)
                  ++ lit "@")
         ++ serializeHost h
         ++ match port u with
            | Some p => lit ":" ++ decimal p
            | None => []
            end
     | None => if startsWith (path u) (lit "//") then lit "/." else []
     end
  ++ path u
  ++ match query u with Some q => lit "?" ++ q | None => [] end
  ++ match fragment u with Some f => lit "#" ++ f | None => [] end.

(* ================================================================== *)
(** ** URL validation *)
(* ================================================================== *)

(** [RSS_DOMAIN_ALLOWLIST], from the text of the environment variable
    (empty when the variable is not set). *)
Definition RSS_DOMAIN_ALLOWLIST (env : jsstring) : list jsstring :=
  List.filter (fun s => negb (jsEqb s []))
    (List.map (fun s => toLowerCase (trim s)) (splitOn 44 env)).

(** Comparisons of a number that may be [NaN] or [undefined] with an
    integer: all false on [None]. *)
Definition numEq (a : option Z) (k : Z) : bool :=
  match a with Some x => (x =? k)%Z | None => false end.
Definition numGe (a : option Z) (k : Z) : bool :=
  match a with Some x => (k <=? x)%Z | None => false end.
Definition numLe (a : option Z) (k : Z) : bool :=
  match a with Some x => (x <=? k)%Z | None => false end.

Definition isPrivateIpLiteral (hostname : jsstring) : bool :=
  if jsEqb hostname [] then false
  else
    let ipVersion := isIP hostname in
    if ipVersion =? 0 then false
    else if ipVersion =? 4 then
      let parts := List.map parseInt10 (splitOn 46 hostname) in
      let a := nth 0 parts None in
      let b := nth 1 parts None in
      if numEq a 10 then true
      else if numEq a 172 && numGe b 16 && numLe b 31 then true
      else if numEq a 192 && numEq b 168 then true
      else if numEq a 127 then true
      else if numEq a 169 && numEq b 254 then true
      else if numEq a 0 then true
      else if numEq a 100 && numGe b 64 && numLe b 127 then true
      else false
    else
      let h := toLowerCase hostname in
      if jsEqb h (lit "::1") then true
      else if startsWith h (lit "fe80:") then true
      else if startsWith h (lit "fc") || startsWith h (lit "fd") then true
      else false.

Definition passesAllowlist (allowlist : list jsstring) (hostname : jsstring)
  : bool :=
  match allowlist with
  | [] => true
  | _ =>
      let h := toLowerCase hostname in
      existsb (fun allowed => jsEqb h allowed || endsWith h (lit "." ++ allowed))
        allowlist
  end.

Inductive ValidationResult :=
| Accepted (url : jsstring)
| Rejected (reason : jsstring).

Definition ok (v : ValidationResult) : bool :=
  match v with Accepted _ => true | Rejected _ => false end.

Section Validator.
(** [new URL(input)] of the platform; [None] when it throws. *)
Variable newURL : jsstring -> option URL.
Variable allowlist : list jsstring.

Definition validateRssUrl (inputUrl : jsstring) : ValidationResult :=
  match newURL inputUrl with
  | None => Rejected (lit "Invalid URL")
  | Some url =>
      if negb (existsb (jsEqb (protocol url)) [lit "http:"; lit "https:"])
      then Rejected (lit "Only http/https URLs are allowed")
      else
        let hostname := hostname url in
        let h := toLowerCase hostname in
        if jsEqb h (lit "localhost") || endsWith h (lit ".localhost")
           || endsWith h (lit ".local")
        then Rejected (lit "Localhost/local domains are not allowed")
        else if isPrivateIpLiteral hostname
        then Rejected (lit "Private IP addresses are not allowed")
        else if negb (passesAllowlist allowlist hostname)
        then Rejected (lit "Hostname not in allowlist")
        else Accepted (toString url)
  end.
End Validator.

(* ------------------------------------------------------------------ *)
(** *** A URL parser for plain inputs

    [basicURLParser] follows the URL Standard on inputs that need no
    repair: a lowercase or uppercase scheme, [//], a host that is a
    bracketed IPv6 address, four decimal octets or an ASCII domain, an
    optional port, and a path, query and fragment of unreserved
    characters without dot segments.  On any other input it gives [None].
    The theorems about the validator hold for every parser; this one runs
    the validator on concrete inputs. *)

Definition isAlpha (c : N) : bool :=
  (97 <=? c) && (c <=? 122) || (65 <=? c) && (c <=? 90).

Definition isPlainUnit (c : N) : bool :=
  isAlpha c || isDigit c || (c =? 45) || (c =? 46) || (c =? 95) || (c =? 126).

(** The text before the first code unit that satisfies [stop], and the
    text from that code unit on. *)
Fixpoint breakAt (stop : N -> bool) (s : jsstring) : jsstring * jsstring :=
  match s with
  | [] => ([], [])
  | c :: s' =>
      if stop c then ([], s)
      else let '(a, b) := breakAt stop s' in (c :: a, b)
  end.

Definition hexUnitValue (c : N) : N :=
  if isDigit c then c - 48
  else if (97 <=? c) && (c <=? 102) then c - 87
  else c - 55.

Definition hexValue (s : jsstring) : N :=
  fold_left (fun acc c => 16 * acc + hexUnitValue c) s 0.

Definition parsePieces (s : jsstring) : option (list N) :=
  match s with
  | [] => Some []
  | _ =>
      let gs := splitOn 58 s in
      if forallb v6Seg gs then Some (List.map hexValue gs) else None
  end.

Definition parseIPv6 (s : jsstring) : option (list N) :=
  match splitDoubleColon s with
  | None =>
      match parsePieces s with
      | Some ps => if (length ps =? 8)%nat then Some ps else None
      | None => None
      end
  | Some (l, r) =>
      match parsePieces l, parsePieces r with
      | Some pl, Some pr =>
          if (length pl + length pr <=? 7)%nat
          then Some (pl ++ repeat 0 (8 - length pl - length pr) ++ pr)
          else None
      | _, _ => None
      end
  end.

Definition lastLabelIsNumber (name : jsstring) : bool :=
  let parts := rev (splitOn 46 name) in
  let parts := match parts with [] :: (_ :: _) as r => r | _ => parts end in
  match parts with
  | [] => false
  | l :: _ =>
      negb (jsEqb l []) && forallb isDigit l
      || startsWith (toLowerCase l) (lit "0x")
  end.

Definition parseHostBasic (s : jsstring) : option Host :=
  match s with
  | [] => None
  | _ =>
      if lastLabelIsNumber s then
        if isIPv4 s then
          Some (IPv4Host
                  (fold_left (fun acc p => 256 * acc + digitsValue 0 p)
                     (splitOn 46 s) 0))
        else None
      else if forallb (fun c => isAlpha c || isDigit c || (c =? 45) || (c =? 46)) s
      then Some (Domain (toLowerCase s))
      else None
  end.

Definition parsePortBasic (sch s : jsstring) : option (option N) :=
  match s with
  | [] => Some None
  | _ =>
      if forallb isDigit s && (length s <=? 5)%nat then
        let p := digitsValue 0 s in
        if 65535 <? p then None
        else if jsEqb sch (lit "http") && (p =? 80)
                || jsEqb sch (lit "https") && (p =? 443)
        then Some None
        else Some (Some p)
      else None
  end.

Definition parseAuthorityBasic (sch s : jsstring)
  : option (Host * option N) :=
  match s with
  | 91 :: r =>
      let '(inside, after) := breakAt (N.eqb 93) r in
      match parseIPv6 inside, after with
      | Some ps, [93] => Some (IPv6Host ps, None)
      | Some ps, 93 :: 58 :: p =>
          option_map (fun q => (IPv6Host ps, q)) (parsePortBasic sch p)
      | _, _ => None
      end
  | _ =>
      let '(h, after) := breakAt (N.eqb 58) s in
      match parseHostBasic h, after with
      | Some hst, [] => Some (hst, None)
      | Some hst, _ :: p =>
          option_map (fun q => (hst, q)) (parsePortBasic sch p)
      | None, _ => None
      end
  end.

Definition plainPath (s : jsstring) : bool :=
  forallb (fun c => isPlainUnit c || (c =? 47)) s
  && forallb (fun seg => negb (jsEqb seg (lit ".") || jsEqb seg (lit "..")))
       (splitOn 47 s).

Definition plainQuery (s : jsstring) : bool :=
  forallb (fun c => isPlainUnit c || (c =? 47) || (c =? 61) || (c =? 38)) s.

Definition basicURLParser (input : jsstring) : option URL :=
  let '(sch, rest) := breakAt (N.eqb 58) input in
  match sch, rest with
  | c :: _, _ :: rest =>
      if isAlpha c && forallb (fun c => isAlpha c || isDigit c) sch then
        let sch := toLowerCase sch in
        let '(body, frag) := breakAt (N.eqb 35) rest in
        let '(body, qry) := breakAt (N.eqb 63) body in
        let frag := match frag with [] => None | _ :: f => Some f end in
        let qry := match qry with [] => None | _ :: q => Some q end in
        if negb (plainQuery (default [] qry) && plainQuery (default [] frag))
        then None
        else if jsEqb sch (lit "http") || jsEqb sch (lit "https") then
          match body with
          | 47 :: 47 :: r =>
              let '(authority, pth) := breakAt (N.eqb 47) r in
              match parseAuthorityBasic sch authority with
              | Some (hst, prt) =>
                  if plainPath pth then
                    Some (mkURL sch [] [] (Some hst) prt
                            (match pth with [] => lit "/" | _ => pth end)
                            qry frag)
                  else None
              | None => None
              end
          | _ => None
          end
        else if existsb (jsEqb sch) [lit "ftp"; lit "file"; lit "ws"; lit "wss"]
        then None
        else
          match body with
          | 47 :: _ => None
          | _ =>
              if forallb isPlainUnit body
              then Some (mkURL sch [] [] None None body qry frag)
              else None
          end
      else None
  | _, _ => None
  end.

(* ================================================================== *)
(** ** Values of the parsed feed and exceptions *)
(* ================================================================== *)

Inductive Exn :=
| TypeError
| RangeError
| FetchError (message : jsstring).

(** The result of a computation that may throw (or of a promise that may
    reject). *)
Inductive Js (A : Type) :=
| Ok (a : A)
| Throw (e : Exn).
Arguments Ok {A} a.
Arguments Throw {A} e.

#[export] Instance Js_ret : MRet Js := fun _ a => Ok a.
#[export] Instance Js_bind : MBind Js := fun _ _ f m =>
  match m with
  | Ok a => f a
  | Throw e => Throw e
  end.
#[export] Instance Js_fmap : FMap Js := fun _ _ f m =>
  match m with
  | Ok a => Ok (f a)
  | Throw e => Throw e
  end.

#[local] Set Warnings "-register-all".

(** The values that the feed parser builds from XML: strings, objects,
    arrays, and [undefined] for what is absent; and the native methods
    that the platform gives to strings, which a property read can return. *)
Inductive JsVal :=
| JUndefined
| JString (s : jsstring)
| JObject (props : list (string * JsVal))
| JArray (elems : list JsVal)
| JNative (name : string).

Definition truthy (v : JsVal) : bool :=
  match v with
  | JUndefined => false
  | JString [] => false
  | _ => true
  end.

(** [a || b] *)
Definition orElse (a b : JsVal) : JsVal := if truthy a then a else b.

Fixpoint lookupProp (k : string) (props : list (string * JsVal)) : JsVal :=
  match props with
  | [] => JUndefined
  | (k', v) :: r => if String.eqb k k' then v else lookupProp k r
  end.

(** [v.k] for the property names that the server reads: [title], [link],
    [pubDate], [isoDate], [content], [contentSnippet], [duration],
    [enclosure], [mediaContent], [mediaThumbnail], [itunesImage], [$],
    [url], [type] and [href].  Reading a property of [undefined] is a
    [TypeError].  Of these names, arrays and functions have none, and
    strings have [link], the method [String.prototype.link]. *)
Definition getProp (v : JsVal) (k : string) : Js JsVal :=
  match v with
  | JUndefined => Throw TypeError
  | JObject props => Ok (lookupProp k props)
  | JString _ => Ok (if String.eqb k "link" then JNative "link" else JUndefined)
  | JArray _ | JNative _ => Ok JUndefined
  end.

(** [v[0]] *)
Definition getFirst (v : JsVal) : Js JsVal :=
  match v with
  | JUndefined => Throw TypeError
  | JObject props => Ok (lookupProp "0" props)
  | JString [] => Ok JUndefined
  | JString (c :: _) => Ok (JString [c])
  | JArray [] => Ok JUndefined
  | JArray (x :: _) => Ok x
  | JNative _ => Ok JUndefined
  end.

(** The receiver of a string method such as [startsWith] or
    [toLowerCase]: calling it on a value that has no such method is a
    [TypeError]. *)
Definition stringReceiver (v : JsVal) : Js jsstring :=
  match v with
  | JString s => Ok s
  | _ => Throw TypeError
  end.

Fixpoint joinWith (sep : jsstring) (l : list jsstring) : jsstring :=
  match l with
  | [] => []
  | [x] => x
  | x :: r => x ++ sep ++ joinWith sep r
  end.

(** [String(v)] *)
Fixpoint toStringJs (v : JsVal) : jsstring :=
  match v with
  | JUndefined => lit "undefined"
  | JString s => s
  | JObject _ => lit "[object Object]"
  | JNative name => lit "function " ++ lit name ++ lit "() { [native code] }"
  | JArray elems =>
      joinWith (lit ",")
        (List.map (fun x => match x with
                            | JUndefined => []
                            | _ => toStringJs x
                            end) elems)
  end.

(* ================================================================== *)
(** ** Utilities of the server *)
(* ================================================================== *)

(** The replacement of [/<[^>]*>?/gm] by the empty string: from each [<]
    up to and including the next [>], or up to the end. *)
Fixpoint stripTags (inTag : bool) (s : jsstring) : jsstring :=
  match s with
  | [] => []
  | c :: s' =>
      if inTag then stripTags (negb (c =? 62)) s'
      else if c =? 60 then stripTags true s'
      else c :: stripTags false s'
  end.

Definition stripHtml (str : JsVal) : jsstring :=
  if negb (truthy str) then [] else stripTags false (toStringJs str).

(** The replacement of [/\s+/g] by one space. *)
Fixpoint collapseSpaces (inSpace : bool) (s : jsstring) : jsstring :=
  match s with
  | [] => []
  | c :: s' =>
      if isWhite c then
        if inSpace then collapseSpaces true s'
        else 32 :: collapseSpaces true s'
      else c :: collapseSpaces false s'
  end.

Definition ellipsis : jsstring := [8230].

Definition safeTruncate (str : JsVal) (n : nat) : jsstring :=
  let s := trim (collapseSpaces false (stripHtml str)) in
  match s with
  | [] => []
  | _ => if (n <? length s)%nat then trim (firstn n s) ++ ellipsis else s
  end.

(** [s.replace(pat, rep)] for a string pattern: the first occurrence. *)
Fixpoint replaceFirst (s pat rep : jsstring) : jsstring :=
  if startsWith s pat then rep ++ skipn (length pat) s
  else match s with
       | [] => []
       | c :: s' => c :: replaceFirst s' pat rep
       end.

Definition normalizeToHttps (url : JsVal) : Js jsstring :=
  if negb (truthy url) then Ok []
  else
    s ← stringReceiver url;
    Ok (if startsWith s (lit "http://")
        then replaceFirst s (lit "http://") (lit "https://")
        else s).

Definition isString (v : JsVal) : bool :=
  match v with JString _ => true | _ => false end.

Definition pickImageUrl (item : JsVal) : Js jsstring :=
  mt ← getProp item "mediaThumbnail";
  tn ← (if truthy mt then
          mt0 ← getFirst mt;
          if truthy mt0 then
            attrs ← getProp mt0 "$";
            if truthy attrs then getProp attrs "url" else Ok attrs
          else Ok mt0
        else Ok mt);
  if truthy tn then normalizeToHttps tn
  else
    im ← getProp item "itunesImage";
    if truthy im then
      if isString im then normalizeToHttps im
      else
        href ← getProp im "href";
        if truthy href then normalizeToHttps href
        else
          url ← getProp im "url";
          if truthy url then normalizeToHttps url else Ok []
    else Ok [].

Record Media := mkMedia { media_url : JsVal; media_type : JsVal }.

Definition pickMedia (item : JsVal) : Js Media :=
  enc ← getProp item "enclosure";
  encUrl ← (if truthy enc then getProp enc "url" else Ok enc);
  if truthy encUrl then
    ty ← getProp enc "type";
    Ok (mkMedia encUrl (orElse ty (JString [])))
  else
    mcs ← getProp item "mediaContent";
    mc ← (if truthy mcs then getFirst mcs else Ok mcs);
    attrs ← (if truthy mc then getProp mc "$" else Ok mc);
    mcUrl ← (if truthy attrs then getProp attrs "url" else Ok attrs);
    if truthy mcUrl then
      ty ← getProp attrs "type";
      Ok (mkMedia mcUrl (orElse ty (JString [])))
    else
      link ← getProp item "link";
      Ok (mkMedia (orElse link (JString [])) (JString [])).

Inductive Kind := audio | video.

(** Whether [s] begins with a dot, one of the extensions, and then [?],
    [#] or the end of the string. *)
Definition extensionHere (exts : list jsstring) (s : jsstring) : bool :=
  match s with
  | c :: r =>
      (c =? 46) &&
      existsb (fun e =>
                 startsWith r e &&
                 match skipn (length e) r with
                 | [] => true
                 | d :: _ => (d =? 63) || (d =? 35)
                 end) exts
  | [] => false
  end.

(** [s.match(/\.(e1|e2|...)(\?|#|$)/)] is not [null]. *)
Fixpoint matchesExtension (exts : list jsstring) (s : jsstring) : bool :=
  extensionHere exts s ||
  match s with
  | [] => false
  | _ :: s' => matchesExtension exts s'
  end.

Definition videoExtensions : list jsstring := [lit "mp4"; lit "webm"; lit "mov"].
Definition audioExtensions : list jsstring :=
  [lit "mp3"; lit "m4a"; lit "aac"; lit "ogg"; lit "wav"].

Definition inferKind (mediaUrl mediaType : JsVal) : Js Kind :=
  u ← toLowerCase <$> stringReceiver (orElse mediaUrl (JString []));
  t ← toLowerCase <$> stringReceiver (orElse mediaType (JString []));
  Ok (if startsWith t (lit "video/") then video
      else if startsWith t (lit "audio/") then audio
      else if includes u (lit ".m3u8") then video
      else if matchesExtension videoExtensions u then video
      else if matchesExtension audioExtensions u then audio
      else audio).

(* ================================================================== *)
(** ** The episode records of [/api/episodes.json] *)
(* ================================================================== *)

Record Episode := mkEpisode {
  ep_id : nat;
  ep_title : JsVal;
  ep_date : JsVal;
  ep_description : jsstring;
  ep_mediaUrl : JsVal;
  ep_mediaType : JsVal;
  ep_kind : Kind;
  ep_imageUrl : jsstring;
  ep_duration : JsVal;
  ep_link : JsVal
}.

(** [items.slice(0, limit)] for an integer [limit]; a negative limit
    counts from the end. *)
Definition slice0 {A} (limit : Z) (items : list A) : list A :=
  if (limit <? 0)%Z
  then firstn (length items - Z.to_nat (- limit)) items
  else firstn (Z.to_nat limit) items.

(** [items.map((it, idx) => f(it, idx))], stopping at the first
    exception. *)
Fixpoint mapIndexed {A B} (f : A -> nat -> Js B) (idx : nat) (items : list A)
  : Js (list B) :=
  match items with
  | [] => Ok []
  | it :: rest =>
      e ← f it idx;
      es ← mapIndexed f (S idx) rest;
      Ok (e :: es)
  end.

Section Episodes.
(** [new Date(v).toISOString()] of the platform, a [RangeError] when
    the date is invalid. *)
Variable dateToISOString : JsVal -> Js jsstring.
Variable EP_LIMIT : Z.

(** The callback of [map] in the handler. *)
Definition toEpisode (it : JsVal) (idx : nat) : Js Episode :=
  media ← pickMedia it;
  let mediaUrl := orElse (media_url media) (JString []) in
  kind ← inferKind mediaUrl (media_type media);
  isoDate ← getProp it "isoDate";
  dateStr ← (if truthy isoDate then JString <$> dateToISOString isoDate
             else pubDate ← getProp it "pubDate";
                  Ok (orElse pubDate (JString [])));
  title ← getProp it "title";
  contentSnippet ← getProp it "contentSnippet";
  content ← getProp it "content";
  imageUrl ← pickImageUrl it;
  duration ← getProp it "duration";
  link ← getProp it "link";
  Ok {| ep_id := idx;
        ep_title := orElse title (JString (lit "Untitled Episode"));
        ep_date := dateStr;
        ep_description :=
          safeTruncate (orElse (orElse contentSnippet content) (JString []))
            1000;
        ep_mediaUrl := mediaUrl;
        ep_mediaType := orElse (media_type media) (JString []);
        ep_kind := kind;
        ep_imageUrl := imageUrl;
        ep_duration := orElse duration (JString []);
        ep_link := orElse link (JString []) |}.

(** [(feed.items || []).slice(0, EP_LIMIT).map(...).filter(e =>
    !!e.mediaUrl)] *)
Definition episodes (items : list JsVal) : Js (list Episode) :=
  mapped ← mapIndexed toEpisode 0 (slice0 EP_LIMIT items);
  Ok (List.filter (fun e => truthy (ep_mediaUrl e)) mapped).
End Episodes.

(* ================================================================== *)
(** ** The feed cache *)
(* ================================================================== *)

(** The object that [parser.parseURL] resolves to. *)
Record Feed := mkFeed {
  feed_title : JsVal;
  feed_link : JsVal;
  feed_description : JsVal;
  feed_items : list JsVal
}.

Record CacheEntry := mkEntry { at_ : Z; feed : Feed }.

(** The state that [getFeed] reads and writes: the [cache] map, and the
    calls of [parser.parseURL] made so far, latest first. *)
Record Server := mkServer {
  cache : gmap jsstring CacheEntry;
  calls : list jsstring
}.

Section Cache.
(** The first 24 hexadecimal digits of the SHA-256 digest. *)
Variable stableHash : jsstring -> jsstring.
Variable CACHE_TTL_MS : Z.
(** [parser.parseURL]: what the upstream answers to a call, given the
    calls made before it. *)
Variable parseURL : list jsstring -> jsstring -> Js Feed.

(** The feed that the condition [!force && existing && existing.feed
    && now - existing.at < CACHE_TTL_MS] lets [getFeed] return; the
    feed of an entry is an object, so it is truthy. *)
Definition cached (force : bool) (now : Z) (existing : option CacheEntry)
  : option Feed :=
  match existing with
  | Some e =>
      if negb force && (now - at_ e <? CACHE_TTL_MS)%Z
      then Some (feed e) else None
  | None => None
  end.

(** [getFeed(rssUrl, force)] when [Date.now()] is [now]. *)
Definition getFeed (rssUrl : jsstring) (force : bool) (now : Z) (st : Server)
  : Js Feed * Server :=
  let key := stableHash rssUrl in
  let existing := cache st !! key in
  match cached force now existing with
  | Some f => (Ok f, st)
  | None =>
      match parseURL (calls st) rssUrl with
      | Ok f =>
          (Ok f, mkServer (<[key := mkEntry now f]> (cache st))
                   (rssUrl :: calls st))
      | Throw err => (Throw err, mkServer (cache st) (rssUrl :: calls st))
      end
  end.
End Cache.



(* ================================================================== *)
(** ** The address blocks of the specification *)
(* ================================================================== *)

(** The address [a.b.c.d] as a 32-bit number. *)
Definition ipv4 (a b c d : N) : N := ((a * 256 + b) * 256 + c) * 256 + d.

(** [n] lies in the block [base/len]. *)
Definition inBlock (base len n : N) : bool :=
  N.shiftr n (32 - len) =? N.shiftr base (32 - len).

(** Loopback, link-local, the private ranges, CGNAT and the all-zeros
    block. *)
Definition nonPublicIPv4Blocks : list (N * N) :=
  [ (ipv4 127 0 0 0, 8); (ipv4 169 254 0 0, 16); (ipv4 10 0 0 0, 8);
    (ipv4 172 16 0 0, 12); (ipv4 192 168 0 0, 16); (ipv4 100 64 0 0, 10);
    (ipv4 0 0 0 0, 8) ].

Definition nonPublicIPv4 (n : N) : bool :=
  existsb (fun bl => inBlock (fst bl) (snd bl) n) nonPublicIPv4Blocks.

(** Loopback [::1], link-local [fe80::/10] and unique-local [fc00::/7],
    on the eight pieces of an address. *)
Definition nonPublicIPv6 (pieces : list N) : bool :=
  bool_decide (pieces = [0; 0; 0; 0; 0; 0; 0; 1])
  || match pieces with
     | p :: _ => (N.shiftr p 6 =? N.shiftr 65152 6)
                 || (N.shiftr p 9 =? N.shiftr 64512 9)
     | [] => false
     end.

(** What the validator needs of one octet [a]. *)
Definition octetChecks (a : N) : bool :=
  v4Seg (decimal a) && lacks 46 (decimal a)
  && match parseInt10 (decimal a) with
     | Some z => (z =? Z.of_N a)%Z
     | None => false
     end.

(* ================================================================== *)
(** ** The extension heuristic of the specification *)
(* ================================================================== *)

(** [u] holds a dot and one of the extensions immediately before a query,
    a fragment or the end of the text. *)
Definition hasExtension (exts : list jsstring) (u : jsstring) : Prop :=
  exists before e after,
    In e exts
    /\ u = before ++ lit "." ++ e ++ after
    /\ (after = [] \/ exists r, after = 63 :: r \/ after = 35 :: r).

(** [u] holds the text [p] somewhere. *)
Definition occursIn (p u : jsstring) : Prop :=
  exists before after, u = before ++ p ++ after.

(* ================================================================== *)
(** ** The shape of a collapsed text *)
(* ================================================================== *)

(** Every white code unit of [s] is a space, and none follows another
    white code unit; [afterWhite] tells whether one precedes [s]. *)
Fixpoint wellSpaced (afterWhite : bool) (s : jsstring) : bool :=
  match s with
  | [] => true
  | c :: r =>
      if isWhite c then negb afterWhite && (c =? 32) && wellSpaced true r
      else wellSpaced false r
  end.

(** The text that [safeTruncate] measures and cuts. *)
Definition cleanText (str : JsVal) : jsstring :=
  trim (collapseSpaces false (stripHtml str)).

(* ================================================================== *)
(** ** Image selection and scheme upgrade of the specification *)
(* ================================================================== *)

(** The image that the specification selects: the URL of the first media
    thumbnail; else the iTunes image, a string or its [href] or [url];
    else the empty string. *)
Definition selectedImage (item : JsVal) : Js JsVal :=
  mt ← getProp item "mediaThumbnail";
  tn ← (if truthy mt then
          mt0 ← getFirst mt;
          if truthy mt0 then
            attrs ← getProp mt0 "$";
            if truthy attrs then getProp attrs "url" else Ok attrs
          else Ok mt0
        else Ok mt);
  if truthy tn then Ok tn
  else
    im ← getProp item "itunesImage";
    if truthy im then
      if isString im then Ok im
      else
        href ← getProp im "href";
        if truthy href then Ok href
        else
          url ← getProp im "url";
          if truthy url then Ok url else Ok (JString [])
    else Ok (JString []).

(** The textual upgrade of the scheme [http] to [https]. *)
Definition upgradeScheme (s : jsstring) : jsstring :=
  if startsWith s (lit "http://") then lit "https://" ++ skipn 7 s else s.

(* ================================================================== *)
(** ** The shape of a raw item *)
(* ================================================================== *)

(** A field that is absent or a string. *)
Definition optionalString (v : JsVal) : bool :=
  match v with
  | JUndefined | JString _ => true
  | _ => false
  end.

(** An absent value, or an object whose listed fields are absent or
    strings. *)
Definition optionalAttrs (keys : list string) (v : JsVal) : bool :=
  match v with
  | JUndefined => true
  | JObject props => forallb (fun k => optionalString (lookupProp k props)) keys
  | _ => false
  end.

(** An absent value, or an array of elements whose attributes [$] are
    absent or hold the listed fields. *)
Definition optionalNodes (keys : list string) (v : JsVal) : bool :=
  match v with
  | JUndefined => true
  | JArray elems =>
      forallb (fun el => match el with
                         | JObject props =>
                             optionalAttrs keys (lookupProp "$" props)
                         | _ => false
                         end) elems
  | _ => false
  end.

(** An absent image, a string, or an object with [href] and [url]. *)
Definition optionalImage (v : JsVal) : bool :=
  match v with
  | JString _ => true
  | _ => optionalAttrs ["href"; "url"]%string v
  end.

(** A raw item: an object whose fields are absent (or empty) or have the
    type that the feed parser gives them, with a date that the platform
    can read when there is one. *)
Definition rawItem (dateToISOString : JsVal -> Js jsstring) (it : JsVal)
  : bool :=
  match it with
  | JObject props =>
      forallb (fun k => optionalString (lookupProp k props))
        ["title"; "link"; "pubDate"; "isoDate"; "contentSnippet"; "content";
         "duration"]%string
      && (negb (truthy (lookupProp "isoDate" props))
          || match dateToISOString (lookupProp "isoDate" props) with
             | Ok _ => true
             | Throw _ => false
             end)
      && optionalAttrs ["url"; "type"]%string (lookupProp "enclosure" props)
      && optionalNodes ["url"; "type"]%string (lookupProp "mediaContent" props)
      && optionalNodes ["url"]%string (lookupProp "mediaThumbnail" props)
      && optionalImage (lookupProp "itunesImage" props)
  | _ => false
  end.

(* ================================================================== *)
(** ** Sample collaborators *)
(* ================================================================== *)

Definition sampleFeed : Feed :=
  mkFeed (JString (lit "Channel")) (JString (lit "https://example.com/"))
    (JString []) [].

(** An upstream that always answers. *)
Definition upstreamUp : list jsstring -> jsstring -> Js Feed :=
  fun _ _ => Ok sampleFeed.

(** An upstream that answers the first call and fails afterwards. *)
Definition upstreamOnce : list jsstring -> jsstring -> Js Feed :=
  fun earlier _ =>
    match earlier with
    | [] => Ok sampleFeed
    | _ => Throw (FetchError (lit "ECONNREFUSED"))
    end.

(** A key function in the place of the digest. *)
Definition sampleHash (s : jsstring) : jsstring := firstn 24 (rev s).

Definition sampleUrl : jsstring := lit "https://example.com/feed.xml".

Definition emptyServer : Server := mkServer ∅ [].

(** [s] has the shape [shape], where [d] stands for a digit. *)
Fixpoint matchesShape (shape s : jsstring) : bool :=
  match shape, s with
  | [], [] => true
  | p :: shape', c :: s' =>
      (if p =? 100 then isDigit c else c =? p) && matchesShape shape' s'
  | _, _ => false
  end.

(** A date collaborator in the place of [Date]: it returns a text of the
    form [2024-05-01T10:00:00.000Z] as it is, and throws on anything
    else. *)
Definition sampleDate (v : JsVal) : Js jsstring :=
  match v with
  | JString s =>
      if matchesShape (lit "dddd-dd-ddTdd:dd:dd.dddZ") s then Ok s
      else Throw RangeError
  | _ => Throw RangeError
  end.

(** An item with an [http] enclosure and an [http] iTunes image. *)
Definition itemHttp : JsVal :=
  JObject
    [ ("title"%string, JString (lit "Pilot"));
      ("isoDate"%string, JString (lit "2024-05-01T10:00:00.000Z"));
      ("enclosure"%string,
        JObject [ ("url"%string, JString (lit "http://cdn.example.com/a.mp3"));
                  ("type"%string, JString (lit "audio/mpeg")) ]);
      ("itunesImage"%string, JString (lit "http://img.example.com/a.jpg")) ].

(** An item with a title and nothing to play. *)
Definition itemBare : JsVal :=
  JObject [ ("title"%string, JString (lit "Announcement"));
            ("link"%string, JString []) ].


(* ================================================================== *)
(** ** Escaping for HTML *)
(* ================================================================== *)

(** [s.replace(/c/g, r)] for a pattern of one code unit [c] and a
    replacement text [r] without [$]. *)
Definition replaceUnit (c : N) (r s : jsstring) : jsstring :=
  flat_map (fun x => if x =? c then r else [x]) s.

(** [escapeHtml] of the server, and [esc] of the page script, which has
    the same body. *)
Definition escapeHtml (str : JsVal) : jsstring :=
  if negb (truthy str) then []
  else
    replaceUnit 39 (lit "&#039;")
      (replaceUnit 34 (lit "&quot;")
         (replaceUnit 62 (lit "&gt;")
            (replaceUnit 60 (lit "&lt;")
               (replaceUnit 38 (lit "&amp;") (toStringJs str))))).

(** The text that stands for one code unit after the five
    replacements. *)
Definition escapeUnit (c : N) : jsstring :=
  if c =? 38 then lit "&amp;"
  else if c =? 60 then lit "&lt;"
  else if c =? 62 then lit "&gt;"
  else if c =? 34 then lit "&quot;"
  else if c =? 39 then lit "&#039;"
  else [c].

(** The code units that open or close markup or an attribute value. *)
Definition isMarkupUnit (c : N) : bool :=
  (c =? 60) || (c =? 62) || (c =? 34) || (c =? 39).

(** [s] begins with one of the five character references. *)
Definition referenceHere (s : jsstring) : bool :=
  existsb (startsWith s)
    [lit "&amp;"; lit "&lt;"; lit "&gt;"; lit "&quot;"; lit "&#039;"].

(** Every ampersand of [s] begins a character reference. *)
Fixpoint ampersandsEscaped (s : jsstring) : bool :=
  match s with
  | [] => true
  | c :: r => (negb (c =? 38) || referenceHere s) && ampersandsEscaped r
  end.

(* ================================================================== *)
(** ** The handler of [/api/episodes.json] *)
(* ================================================================== *)

(** What the handler sends: the feed and its episodes with status 200, an
    error with status 400, or an error with status 500. *)
Inductive Response :=
| Json200 (feedTitle feedLink : JsVal) (feedDescription rssUrl : jsstring)
    (records : list Episode)
| Json400 (error : jsstring)
| Json500 (error : jsstring).

(** The status code of a response. *)
Definition status (r : Response) : N :=
  match r with
  | Json200 _ _ _ _ _ => 200
  | Json400 _ => 400
  | Json500 _ => 500
  end.

(** One request: the query parameters [rss] and [refresh], which the
    query parser gives as a string, an array, an object or nothing, and
    the value of [Date.now()] when [getFeed] runs. *)
Record Request := mkRequest {
  query_rss : JsVal;
  query_refresh : JsVal;
  arrival : Z
}.

Section Handler.
Variable newURL : jsstring -> option URL.
Variable allowlist : list jsstring.
Variable stableHash : jsstring -> jsstring.
Variable CACHE_TTL_MS : Z.
Variable parseURL : list jsstring -> jsstring -> Js Feed.
Variable dateToISOString : JsVal -> Js jsstring.
Variable EP_LIMIT : Z.
Variable DEFAULT_RSS_URL : jsstring.
Variable ALLOW_QUERY_RSS : bool.

(** The head of both handlers: the default feed, or the validation of
    the [rss] parameter when the configuration allows one and the request
    has one. *)
Definition chosenRssUrl (rss : JsVal) : ValidationResult :=
  if ALLOW_QUERY_RSS && truthy rss
  then validateRssUrl newURL allowlist (toStringJs rss)
  else Accepted DEFAULT_RSS_URL.

(** [req.query.refresh === "1"] *)
Definition forceRefresh (refresh : JsVal) : bool :=
  match refresh with
  | JString s => jsEqb s (lit "1")
  | _ => false
  end.

Definition apiEpisodes (req : Request) (st : Server) : Response * Server :=
  match chosenRssUrl (query_rss req) with
  | Rejected reason => (Json400 reason, st)
  | Accepted rssUrl =>
      let force := forceRefresh (query_refresh req) in
      let '(result, st') :=
        getFeed stableHash CACHE_TTL_MS parseURL rssUrl force (arrival req) st
      in
      match result with
      | Throw _ => (Json500 (lit "Error fetching/parsing RSS feed."), st')
      | Ok f =>
          match episodes dateToISOString EP_LIMIT (feed_items f) with
          | Throw _ => (Json500 (lit "Error fetching/parsing RSS feed."), st')
          | Ok records =>
              (Json200 (orElse (feed_title f) (JString []))
                 (orElse (feed_link f) (JString []))
                 (stripHtml (orElse (feed_description f) (JString [])))
                 rssUrl records,
               st')
          end
      end
  end.

(** The requests of a list, handled one after the other. *)
Fixpoint serve (reqs : list Request) (st : Server) : list Response * Server :=
  match reqs with
  | [] => ([], st)
  | req :: rest =>
      let '(r, st') := apiEpisodes req st in
      let '(rs, st'') := serve rest st' in
      (r :: rs, st'')
  end.
End Handler.

(** Three requests: a feed that the validator accepts, a local address,
    and no parameter. *)
Definition sampleRequests : list Request :=
  [ mkRequest (JString (lit "https://sub.example.com/feed.xml")) JUndefined 1000;
    mkRequest (JString (lit "http://localhost/")) (JString (lit "1")) 2000;
    mkRequest JUndefined JUndefined 3000 ].


(* ================================================================== *)
(** ** The player of the page script *)
(* ================================================================== *)

(** The state that the page script keeps: [currentIndex], and the [src]
    of the video and of the audio element when it is set. *)
Record Player := mkPlayer {
  currentIndex : Z;
  videoSrc : option JsVal;
  audioSrc : option JsVal
}.

(** What the script reacts to: the keys [ArrowDown], [ArrowUp] and
    [Enter], a click on the entry [i] of the list, and the end of the
    media.  The keys [Space] and [F] pause, resume or go full screen and
    change none of the three fields. *)
Inductive Event :=
| ArrowDown
| ArrowUp
| Enter
| Click (i : Z)
| Ended
| OtherKey.

Section PageScript.
(** [episodes], the records that the page was rendered with. *)
Variable records : list Episode.

Definition initialPlayer : Player := mkPlayer 0 None None.

(** [playIndex(i)]: [stopAll()] clears both elements, then the element
    of the kind of the record gets its media URL. *)
Definition playIndex (i : Z) (p : Player) : Player :=
  if (i <? 0)%Z || (Z.of_nat (length records) <=? i)%Z then p
  else
    match nth_error records (Z.to_nat i) with
    | Some ep =>
        match ep_kind ep with
        | video => mkPlayer i (Some (ep_mediaUrl ep)) None
        | audio => mkPlayer i None (Some (ep_mediaUrl ep))
        end
    | None => p
    end.

Definition step (ev : Event) (p : Player) : Player :=
  match ev with
  | ArrowDown =>
      mkPlayer (Z.min (currentIndex p + 1) (Z.of_nat (length records) - 1))
        (videoSrc p) (audioSrc p)
  | ArrowUp =>
      mkPlayer (Z.max (currentIndex p - 1) 0) (videoSrc p) (audioSrc p)
  | Enter => playIndex (currentIndex p) p
  | Click i => playIndex i p
  | Ended =>
      playIndex (Z.min (currentIndex p + 1) (Z.of_nat (length records) - 1)) p
  | OtherKey => p
  end.

(** The state after the events of a list, the first event first. *)
Definition run (events : list Event) (p : Player) : Player :=
  fold_left (fun q ev => step ev q) events p.

(** What holds of the player at every moment. *)
Definition playerOk (p : Player) : Prop :=
  (videoSrc p = None \/ audioSrc p = None)
  /\ (forall u, videoSrc p = Some u ->
                exists ep, In ep records /\ ep_kind ep = video
                           /\ ep_mediaUrl ep = u)
  /\ (forall u, audioSrc p = Some u ->
                exists ep, In ep records /\ ep_kind ep = audio
                           /\ ep_mediaUrl ep = u)
  /\ (records <> [] ->
      (0 <= currentIndex p < Z.of_nat (length records))%Z)
  /\ (records = [] ->
      (-1 <= currentIndex p <= 0)%Z /\ videoSrc p = None
      /\ audioSrc p = None).
End PageScript.


(* ================================================================== *)
(** ** The episode records of the page *)
(* ================================================================== *)

Section PageEpisodes.
(** [new Date(v).toLocaleDateString(undefined, {...})] of the platform;
    for an invalid date it is the string [Invalid Date], not an
    exception. *)
Variable toLocaleDateString : JsVal -> jsstring.
Variable EP_LIMIT : Z.

(** The callback of [map] in the handler of [/].  The record has no
    [link]; reading it gives [undefined]. *)
Definition toPageEpisode (it : JsVal) (idx : nat) : Js Episode :=
  media ← pickMedia it;
  let mediaUrl := orElse (media_url media) (JString []) in
  kind ← inferKind mediaUrl (media_type media);
  isoDate ← getProp it "isoDate";
  dateStr ← (if truthy isoDate then Ok (JString (toLocaleDateString isoDate))
             else pubDate ← getProp it "pubDate";
                  Ok (orElse pubDate (JString [])));
  title ← getProp it "title";
  contentSnippet ← getProp it "contentSnippet";
  content ← getProp it "content";
  imageUrl ← pickImageUrl it;
  duration ← getProp it "duration";
  Ok {| ep_id := idx;
        ep_title := orElse title (JString (lit "Untitled Episode"));
        ep_date := dateStr;
        ep_description :=
          safeTruncate (orElse (orElse contentSnippet content) (JString []))
            340;
        ep_mediaUrl := mediaUrl;
        ep_mediaType := orElse (media_type media) (JString []);
        ep_kind := kind;
        ep_imageUrl := imageUrl;
        ep_duration := orElse duration (JString []);
        ep_link := JUndefined |}.

Definition pageEpisodes (items : list JsVal) : Js (list Episode) :=
  mapped ← mapIndexed toPageEpisode 0 (slice0 EP_LIMIT items);
  Ok (List.filter (fun e => truthy (ep_mediaUrl e)) mapped).
End PageEpisodes.

(** The fields that the records of the page and of
    [/api/episodes.json] are compared on. *)
Definition sameEpisode (a b : Episode) : Prop :=
  ep_id a = ep_id b
  /\ ep_title a = ep_title b
  /\ ep_mediaUrl a = ep_mediaUrl b
  /\ ep_mediaType a = ep_mediaType b
  /\ ep_kind a = ep_kind b
  /\ ep_imageUrl a = ep_imageUrl b
  /\ ep_duration a = ep_duration b.




(** The records of the page for a feed of two items. *)
Definition sampleRecords : list Episode :=
  match pageEpisodes (fun _ => lit "May 01, 2024") 10 [itemHttp; itemHttp] with
  | Ok out => out
  | Throw _ => []
  end.

(* ================================================================== *)
(** * Properties *)
(* ================================================================== *)

(** ** Strings *)

Lemma jsEqb_true (a b : jsstring) : jsEqb a b = true <-> a = b.
Proof. unfold jsEqb. apply bool_decide_eq_true. Qed.

Lemma jsEqb_false (a b : jsstring) : jsEqb a b = false <-> a <> b.
Proof. unfold jsEqb. apply bool_decide_eq_false. Qed.

Lemma startsWith_app (p r : jsstring) : startsWith (p ++ r) p = true.
Proof.
  induction p as [|a p IH]; simpl; [reflexivity|].
  rewrite N.eqb_refl. exact IH.
Qed.

Lemma startsWith_spec (s p : jsstring) :
  startsWith s p = true <-> exists r, s = p ++ r.
Proof.
  split.
  - revert s. induction p as [|a p IH]; intros s H.
    + exists s. reflexivity.
    + destruct s as [|b s]; simpl in H; [discriminate|].
      apply andb_true_iff in H as [Hab Hs].
      apply N.eqb_eq in Hab. subst b.
      destruct (IH _ Hs) as [r ->]. exists r. reflexivity.
  - intros [r ->]. apply startsWith_app.
Qed.

Lemma endsWith_spec (s p : jsstring) :
  endsWith s p = true <-> exists r, s = r ++ p.
Proof.
  unfold endsWith. rewrite startsWith_spec. split.
  - intros [r Hr]. exists (rev r).
    rewrite <- (rev_involutive s), Hr, rev_app_distr, rev_involutive.
    reflexivity.
  - intros [r ->]. exists (rev r). apply rev_app_distr.
Qed.

Lemma splitOn_cons_ne (sep c : N) (s : jsstring) :
  c <> sep -> exists w ws, splitOn sep (c :: s) = (c :: w) :: ws.
Proof.
  intros Hc. simpl. destruct (N.eqb_spec c sep) as [|_]; [contradiction|].
  destruct (splitOn sep s) as [|w ws]; eauto.
Qed.

Lemma splitOn_lacks (sep : N) (x : jsstring) :
  lacks sep x = true -> splitOn sep x = [x].
Proof.
  induction x as [|c x IH]; simpl; [reflexivity|].
  intros H. apply andb_true_iff in H as [Hc Hx].
  apply negb_true_iff in Hc. rewrite Hc, (IH Hx). reflexivity.
Qed.

Lemma splitOn_app (sep : N) (x r : jsstring) :
  lacks sep x = true -> splitOn sep (x ++ sep :: r) = x :: splitOn sep r.
Proof.
  induction x as [|c x IH]; simpl.
  - intros _. rewrite N.eqb_refl. reflexivity.
  - intros H. apply andb_true_iff in H as [Hc Hx].
    apply negb_true_iff in Hc. rewrite Hc, (IH Hx). reflexivity.
Qed.

(** ** The model on small inputs *)

Example stripHtml_samples :
  List.map (fun s => stripHtml (JString (lit s)))
    ["<p>Hi <b>there</b></p>"; "a < b > c"; "1 > 0"; "cut <a href="]%string
  = List.map lit ["Hi there"; "a  c"; "1 > 0"; "cut "]%string.
Proof. vm_compute. reflexivity. Qed.

Example safeTruncate_samples :
  safeTruncate (JString (lit "  <p>Hello,	wide   world</p> ")) 320
  = lit "Hello, wide world"
  /\ safeTruncate (JString (lit "<i>Hello</i> world")) 5
     = lit "Hello" ++ ellipsis
  /\ safeTruncate JUndefined 320 = [].
Proof. vm_compute. auto. Qed.

Example RSS_DOMAIN_ALLOWLIST_sample :
  RSS_DOMAIN_ALLOWLIST (lit " Example.com , ,feeds.example.org")
  = [lit "example.com"; lit "feeds.example.org"].
Proof. vm_compute. reflexivity. Qed.

Example isIP_samples :
  List.map (fun s => isIP (lit s))
    ["127.0.0.1"; "256.0.0.1"; "01.2.3.4"; "1.2.3"; "::1"; "fe80::1%eth0";
     "1:2:3:4:5:6:7:8"; "1:2:3:4:5:6:7"; "::ffff:10.0.0.1"; "1::2::3";
     "[::1]"; "example.com"]%string
  = [4; 0; 0; 0; 6; 6; 6; 0; 6; 0; 0; 0].
Proof. vm_compute. reflexivity. Qed.

Example serializeHost_samples :
  List.map serializeHost
    [IPv4Host (ipv4 192 168 0 5); IPv6Host [0; 0; 0; 0; 0; 0; 0; 1];
     IPv6Host [65152; 0; 0; 0; 0; 0; 0; 1]; IPv6Host [1; 0; 0; 2; 0; 0; 0; 3];
     Domain (lit "example.com")]
  = List.map lit
      ["192.168.0.5"; "[::1]"; "[fe80::1]"; "[1:0:0:2::3]"; "example.com"]%string.
Proof. vm_compute. reflexivity. Qed.

Example basicURLParser_samples :
  List.map (fun s => option_map toString (basicURLParser (lit s)))
    ["HTTPS://Sub.Example.com/feed.xml"; "http://example.com:80";
     "https://example.com:8443/a/b?x=1#top"; "http://[0:0:0:0:0:0:0:1]/";
     "http://a/../b"; "not a url"]%string
  = [Some (lit "https://sub.example.com/feed.xml");
     Some (lit "http://example.com/");
     Some (lit "https://example.com:8443/a/b?x=1#top");
     Some (lit "http://[::1]/"); None; None].
Proof. vm_compute. reflexivity. Qed.

(** ** Literal addresses *)

Lemma octet_facts (a : N) :
  a < 256 ->
  v4Seg (decimal a) = true /\ lacks 46 (decimal a) = true
  /\ parseInt10 (decimal a) = Some (Z.of_N a).
Proof.
  intros Ha.
  assert (Hall : forallb octetChecks (List.map N.of_nat (seq 0 256)) = true)
    by (vm_compute; reflexivity).
  rewrite forallb_forall in Hall.
  assert (Hin : In a (List.map N.of_nat (seq 0 256))).
  { rewrite <- (N2Nat.id a). apply in_map. apply in_seq. lia. }
  specialize (Hall a Hin). unfold octetChecks in Hall.
  apply andb_true_iff in Hall as [Hall Hp].
  apply andb_true_iff in Hall as [Hseg Hdot].
  repeat split; try assumption.
  destruct (parseInt10 (decimal a)) as [z|]; [|discriminate].
  apply Z.eqb_eq in Hp. congruence.
Qed.

Lemma serializeIPv4_octets (n : N) :
  serializeIPv4 n =
    decimal (n / 256 / 256 / 256 mod 256) ++ lit "."
    ++ decimal (n / 256 / 256 mod 256) ++ lit "."
    ++ decimal (n / 256 mod 256) ++ lit "."
    ++ decimal (n mod 256).
Proof.
  unfold serializeIPv4. change (lit ".") with [46].
  cbn [serializeIPv4From app]. rewrite app_nil_r. reflexivity.
Qed.

Lemma mod256_lt (n : N) : n mod 256 < 256.
Proof. apply N.mod_lt. discriminate. Qed.

Lemma splitOn_serializeIPv4 (n : N) :
  splitOn 46 (serializeIPv4 n) =
    [ decimal (n / 256 / 256 / 256 mod 256); decimal (n / 256 / 256 mod 256);
      decimal (n / 256 mod 256); decimal (n mod 256) ].
Proof.
  rewrite serializeIPv4_octets.
  change (lit ".") with [46]. cbn [app].
  rewrite !splitOn_app by apply octet_facts, mod256_lt.
  rewrite splitOn_lacks by apply octet_facts, mod256_lt.
  reflexivity.
Qed.

Lemma isIPv4_serializeIPv4 (n : N) : isIPv4 (serializeIPv4 n) = true.
Proof.
  unfold isIPv4. rewrite splitOn_serializeIPv4.
  rewrite !(proj1 (octet_facts _ (mod256_lt _))). reflexivity.
Qed.

Lemma serializeIPv4_nonempty (n : N) : jsEqb (serializeIPv4 n) [] = false.
Proof.
  apply jsEqb_false. intros H. apply (f_equal length) in H.
  rewrite serializeIPv4_octets, !length_app in H.
  change (length (lit ".")) with 1%nat in H. simpl in H. lia.
Qed.

Lemma if_true_orb (c e : bool) : (if c then true else e) = c || e.
Proof. destruct c; reflexivity. Qed.

Local Ltac div_mod_lia :=
  Z.to_euclidean_division_equations; lia.

(** On the dotted-decimal text of an IPv4 address, [isPrivateIpLiteral]
    decides exactly the blocks of the specification. *)
Lemma isPrivateIpLiteral_serializeIPv4 (n : N) :
  n < 2 ^ 32 ->
  isPrivateIpLiteral (serializeIPv4 n) = nonPublicIPv4 n.
Proof.
  intros Hn. unfold isPrivateIpLiteral.
  rewrite serializeIPv4_nonempty.
  unfold isIP. rewrite isIPv4_serializeIPv4.
  change (4 =? 0) with false. change (4 =? 4) with true. cbv iota.
  rewrite splitOn_serializeIPv4. cbn [List.map nth].
  rewrite !(proj2 (proj2 (octet_facts _ (mod256_lt _)))).
  unfold numEq, numGe, numLe.
  rewrite !if_true_orb, orb_false_r.
  unfold nonPublicIPv4, nonPublicIPv4Blocks, inBlock. cbn [existsb fst snd].
  rewrite orb_false_r.
  rewrite !N.shiftr_div_pow2.
  set (o1 := n / 256 / 256 / 256 mod 256).
  set (o2 := n / 256 / 256 mod 256).
  apply eq_true_iff_eq.
  rewrite !orb_true_iff, !andb_true_iff, !Z.eqb_eq, !Z.leb_le, !N.eqb_eq.
  repeat match goal with
         | |- context [ipv4 ?a ?b ?c ?d / 2 ^ ?k] =>
             let v := eval vm_compute in (ipv4 a b c d / 2 ^ k) in
             change (ipv4 a b c d / 2 ^ k) with v
         end.
  repeat match goal with
         | |- context [2 ^ (32 - ?k)] =>
             let v := eval vm_compute in (2 ^ (32 - k)) in
             change (2 ^ (32 - k)) with v
         end.
  change (2 ^ 32) with 4294967296 in Hn.
  subst o1 o2.
  replace (n / 16777216) with (n / 65536 / 256)
    by (rewrite N.Div0.div_div; reflexivity).
  replace (n / 1048576) with (n / 65536 / 16)
    by (rewrite N.Div0.div_div; reflexivity).
  replace (n / 4194304) with (n / 65536 / 64)
    by (rewrite N.Div0.div_div; reflexivity).
  replace (n / 256 / 256) with (n / 65536)
    by (rewrite N.Div0.div_div; reflexivity).
  assert (Hq : n / 65536 < 65536)
    by (apply N.Div0.div_lt_upper_bound; exact Hn).
  generalize dependent (n / 65536). intros q Hq.
  assert (Ha : q / 256 < 256)
    by (apply N.Div0.div_lt_upper_bound; exact Hq).
  rewrite (N.mod_small (q / 256)) by exact Ha.
  pose proof (N.div_mod q 256 ltac:(discriminate)) as Hdm.
  pose proof (mod256_lt q) as Hb.
  revert Ha Hdm Hb. generalize (q / 256) (q mod 256). intros a b Ha Hdm Hb.
  zify. div_mod_lia.
Qed.

Lemma v4Seg_bracket (w : jsstring) : v4Seg (91 :: w) = false.
Proof. destruct w as [|? [|? [|? ?]]]; reflexivity. Qed.

Lemma isIPv4_bracket (s : jsstring) : isIPv4 (91 :: s) = false.
Proof.
  unfold isIPv4.
  destruct (splitOn_cons_ne 46 91 s) as (w & ws & ->); [discriminate|].
  destruct ws as [|? [|? [|? [|? ?]]]]; try reflexivity.
  rewrite v4Seg_bracket. reflexivity.
Qed.

Lemma v6Seg_bracket (w : jsstring) : v6Seg (91 :: w) = false.
Proof.
  unfold v6Seg. cbn [forallb].
  change (isHexDigit 91) with false. apply andb_false_r.
Qed.

Lemma v6Groups_bracket (allowV4 : bool) (w : jsstring) (ws : list jsstring) :
  v6Groups allowV4 ((91 :: w) :: ws) = None.
Proof.
  destruct ws; cbn [v6Groups]; rewrite v6Seg_bracket; [|reflexivity].
  rewrite isIPv4_bracket, andb_false_r. reflexivity.
Qed.

Lemma v6Side_bracket (allowV4 : bool) (s : jsstring) :
  v6Side allowV4 (91 :: s) = None.
Proof.
  unfold v6Side.
  destruct (splitOn_cons_ne 58 91 s) as (w & ws & ->); [discriminate|].
  apply v6Groups_bracket.
Qed.

Lemma isIPv6Address_bracket (s : jsstring) : isIPv6Address (91 :: s) = false.
Proof.
  unfold isIPv6Address.
  change (splitDoubleColon (91 :: s))
    with (match splitDoubleColon s with
          | Some (a, b) => Some (91 :: a, b)
          | None => None
          end).
  destruct (splitDoubleColon s) as [[a b]|].
  - rewrite v6Side_bracket. reflexivity.
  - fold (v6Side true (91 :: s)). rewrite v6Side_bracket. reflexivity.
Qed.

Lemma isIPv6_bracket (s : jsstring) : isIPv6 (91 :: s) = false.
Proof.
  unfold isIPv6.
  change (splitZone (91 :: s))
    with (let '(a, z) := splitZone s in (91 :: a, z)).
  destruct (splitZone s) as [a [z|]]; rewrite isIPv6Address_bracket;
    reflexivity.
Qed.

(** A text that begins with a bracket is no literal address for
    [net.isIP]. *)
Lemma isIP_bracket (s : jsstring) : isIP (91 :: s) = 0.
Proof. unfold isIP. rewrite isIPv4_bracket, isIPv6_bracket. reflexivity. Qed.

Lemma isPrivateIpLiteral_bracket (s : jsstring) :
  isPrivateIpLiteral (91 :: s) = false.
Proof. unfold isPrivateIpLiteral. rewrite isIP_bracket. reflexivity. Qed.

Lemma hostname_ipv6 (u : URL) (pieces : list N) :
  host u = Some (IPv6Host pieces) ->
  hostname u = 91 :: serializeIPv6 pieces ++ [93].
Proof. unfold hostname. intros ->. reflexivity. Qed.

Lemma toLowerCase_app (a b : jsstring) :
  toLowerCase (a ++ b) = toLowerCase a ++ toLowerCase b.
Proof. apply map_app. Qed.

Lemma endsWith_last_ne (s p : jsstring) (c d : N) :
  c <> d -> endsWith (s ++ [c]) (p ++ [d]) = false.
Proof.
  intros Hcd. unfold endsWith. rewrite !rev_app_distr. simpl.
  destruct (N.eqb_spec d c); [congruence | reflexivity].
Qed.

(** The text of a bracketed address is none of the local names. *)
Lemma bracketed_not_local (x : jsstring) :
  let h := toLowerCase (91 :: x ++ [93]) in
  jsEqb h (lit "localhost") || endsWith h (lit ".localhost")
  || endsWith h (lit ".local") = false.
Proof.
  intros h. subst h.
  change (91 :: x ++ [93]) with ((91 :: x) ++ [93]).
  rewrite toLowerCase_app. change (toLowerCase [93]) with [93].
  change (lit ".localhost") with (lit ".localhos" ++ [116]).
  change (lit ".local") with (lit ".loca" ++ [108]).
  rewrite !endsWith_last_ne by discriminate.
  rewrite !orb_false_r. apply jsEqb_false.
  intros H. discriminate H.
Qed.

Section ValidatorProperties.
Variable newURL : jsstring -> option URL.
Variable allowlist : list jsstring.

Lemma protocol_http (u : URL) :
  scheme u = lit "http" \/ scheme u = lit "https" ->
  existsb (jsEqb (protocol u)) [lit "http:"; lit "https:"] = true.
Proof.
  unfold protocol. intros [-> | ->]; reflexivity.
Qed.

(** The validator rejects the name [localhost] and every name under
    [.localhost] or [.local], in any letter case. *)
Lemma validateRssUrl_rejects_local_name (s : jsstring) (u : URL) :
  newURL s = Some u ->
  (toLowerCase (hostname u) = lit "localhost"
   \/ (exists sub, toLowerCase (hostname u) = sub ++ lit ".localhost")
   \/ (exists sub, toLowerCase (hostname u) = sub ++ lit ".local")) ->
  ok (validateRssUrl newURL allowlist s) = false.
Proof.
  intros Hp Hname. unfold validateRssUrl. rewrite Hp.
  destruct (negb _); [reflexivity|]. cbv zeta.
  replace (jsEqb _ (lit "localhost") || _ || _) with true; [reflexivity|].
  symmetry. rewrite !orb_true_iff, jsEqb_true, !endsWith_spec.
  tauto.
Qed.

(** The validator rejects every IPv4 host in loopback, link-local, the
    private ranges, CGNAT and the all-zeros block. *)
Lemma validateRssUrl_rejects_private_ipv4 (s : jsstring) (u : URL) (n : N) :
  newURL s = Some u ->
  host u = Some (IPv4Host n) ->
  n < 2 ^ 32 ->
  nonPublicIPv4 n = true ->
  ok (validateRssUrl newURL allowlist s) = false.
Proof.
  intros Hp Hh Hn Hblock. unfold validateRssUrl. rewrite Hp.
  destruct (negb _); [reflexivity|]. cbv zeta.
  destruct (_ || _ || _); [reflexivity|].
  unfold hostname. rewrite Hh. cbn [serializeHost].
  rewrite isPrivateIpLiteral_serializeIPv4, Hblock by exact Hn.
  reflexivity.
Qed.
End ValidatorProperties.

(** C1 (the code departs from the claim).  For every URL with scheme
    [http] or [https] whose host is an IPv6 address, whatever its eight
    pieces, [validateRssUrl] accepts as soon as the allowlist lets the host
    name pass: [url.hostname] writes the address between brackets, which
    [net.isIP] does not take for an address, so the IPv6 checks of
    [isPrivateIpLiteral] are never reached.  Loopback [::1], link-local
    [fe80::1] and unique-local [fc00::1] are therefore accepted, where the
    claim says that they are rejected. *)
Theorem validateRssUrl_accepts_ipv6_literal
    (newURL : jsstring -> option URL) (allowlist : list jsstring)
    (s : jsstring) (u : URL) (pieces : list N) :
  newURL s = Some u ->
  scheme u = lit "http" \/ scheme u = lit "https" ->
  host u = Some (IPv6Host pieces) ->
  passesAllowlist allowlist (hostname u) = true ->
  validateRssUrl newURL allowlist s = Accepted (toString u).
Proof.
  intros Hp Hs Hh Hallow. unfold validateRssUrl. rewrite Hp.
  rewrite (protocol_http u Hs). cbn [negb]. cbv zeta.
  rewrite Hallow. rewrite (hostname_ipv6 u pieces Hh).
  rewrite (bracketed_not_local (serializeIPv6 pieces)).
  rewrite isPrivateIpLiteral_bracket. reflexivity.
Qed.

Lemma validateRssUrl_accepts_ipv6_literal_witness :
  nonPublicIPv6 [0; 0; 0; 0; 0; 0; 0; 1] = true
  /\ validateRssUrl basicURLParser [] (lit "http://[::1]/feed.xml")
     = Accepted (lit "http://[::1]/feed.xml").
Proof.
  split; [reflexivity|].
  exact (validateRssUrl_accepts_ipv6_literal basicURLParser []
           (lit "http://[::1]/feed.xml")
           (mkURL (lit "http") [] [] (Some (IPv6Host [0; 0; 0; 0; 0; 0; 0; 1]))
              None (lit "/feed.xml") None None)
           [0; 0; 0; 0; 0; 0; 0; 1]
           eq_refl (or_introl eq_refl) eq_refl eq_refl).
Defined.

(** The ten host names of the specification, through the parser for
    plain inputs and with no allowlist: the names and the IPv4 literals
    are rejected, the three IPv6 literals are accepted. *)
Example validateRssUrl_listed_hosts :
  List.map (fun s => ok (validateRssUrl basicURLParser [] (lit s)))
    [ "http://localhost/"; "http://a.localhost/"; "https://x.local/";
      "http://127.0.0.1/"; "http://10.1.2.3/"; "https://192.168.0.5/";
      "http://169.254.1.1/"; "http://[::1]/"; "http://[fe80::1]/";
      "https://[fc00::1]/" ]%string
  = [false; false; false; false; false; false; false; true; true; true].
Proof. vm_compute. reflexivity. Qed.

(** On the bare text of these addresses, which [url.hostname] never
    yields, the IPv6 checks do answer; the link-local check looks for the
    prefix [fe80:] and misses the rest of [fe80::/10]. *)
Example isPrivateIpLiteral_bare_ipv6 :
  List.map (fun s => isPrivateIpLiteral (lit s))
    ["::1"; "fe80::1"; "fc00::1"; "fd12::1"; "febf::1"; "[::1]"]%string
  = [true; true; true; true; false; false].
Proof. vm_compute. reflexivity. Qed.

(** ** The allowlist *)

Lemma passesAllowlist_spec (allowlist : list jsstring) (h : jsstring) :
  allowlist <> [] ->
  passesAllowlist allowlist h = true <->
  exists allowed,
    In allowed allowlist
    /\ (toLowerCase h = allowed
        \/ exists sub, toLowerCase h = sub ++ lit "." ++ allowed).
Proof.
  intros Hne. unfold passesAllowlist.
  destruct allowlist as [|a l]; [contradiction|].
  rewrite existsb_exists. split.
  - intros (allowed & Hin & Hm). exists allowed. split; [exact Hin|].
    apply orb_true_iff in Hm as [Hm | Hm].
    + left. apply jsEqb_true, Hm.
    + right. apply endsWith_spec, Hm.
  - intros (allowed & Hin & Hm). exists allowed. split; [exact Hin|].
    apply orb_true_iff. destruct Hm as [Hm | Hm].
    + left. apply jsEqb_true, Hm.
    + right. apply endsWith_spec, Hm.
Qed.


(** C2.  With the allowlist [{example.com}], an [https] URL whose host is
    [sub.example.com] is accepted and a URL whose host is
    [evilexample.com] is rejected; and with any non-empty allowlist, a URL
    is accepted only if its host name, lowered, is an entry of the list or
    ends with a dot followed by an entry. *)
Theorem validateRssUrl_allowlist (newURL : jsstring -> option URL) :
  (forall s u,
      newURL s = Some u ->
      scheme u = lit "https" ->
      host u = Some (Domain (lit "sub.example.com")) ->
      validateRssUrl newURL (RSS_DOMAIN_ALLOWLIST (lit "example.com")) s
      = Accepted (toString u))
  /\ (forall s u,
         newURL s = Some u ->
         host u = Some (Domain (lit "evilexample.com")) ->
         ok (validateRssUrl newURL (RSS_DOMAIN_ALLOWLIST (lit "example.com")) s)
         = false)
  /\ (forall allowlist s,
         allowlist <> [] ->
         ok (validateRssUrl newURL allowlist s) = true ->
         exists u allowed,
           newURL s = Some u
           /\ In allowed allowlist
           /\ (toLowerCase (hostname u) = allowed
               \/ exists sub,
                    toLowerCase (hostname u) = sub ++ lit "." ++ allowed)).
Proof.
  split; [|split].
  - intros s u Hp Hs Hh. unfold validateRssUrl. rewrite Hp.
    rewrite (protocol_http u (or_intror Hs)). unfold hostname. rewrite Hh.
    reflexivity.
  - intros s u Hp Hh. unfold validateRssUrl. rewrite Hp.
    destruct (negb _); [reflexivity|].
    unfold hostname. rewrite Hh. reflexivity.
  - intros allowlist s Hne Hok. unfold validateRssUrl in Hok.
    destruct (newURL s) as [u|]; [|discriminate].
    destruct (negb (existsb _ _)); [discriminate|]. cbv zeta in Hok.
    destruct (_ || _ || _); [discriminate|].
    destruct (isPrivateIpLiteral _); [discriminate|].
    destruct (passesAllowlist allowlist (hostname u)) eqn:Hpass;
      [|discriminate].
    apply passesAllowlist_spec in Hpass as (allowed & Hin & Hm);
      [|exact Hne].
    exists u, allowed. auto.
Qed.

Lemma validateRssUrl_allowlist_witness :
  validateRssUrl basicURLParser (RSS_DOMAIN_ALLOWLIST (lit "example.com"))
    (lit "https://sub.example.com/feed.xml")
  = Accepted (lit "https://sub.example.com/feed.xml")
  /\ ok (validateRssUrl basicURLParser (RSS_DOMAIN_ALLOWLIST (lit "example.com"))
           (lit "https://evilexample.com/feed.xml")) = false
  /\ exists u allowed,
       basicURLParser (lit "https://sub.example.com/feed.xml") = Some u
       /\ In allowed [lit "example.com"]
       /\ (toLowerCase (hostname u) = allowed
           \/ exists sub,
                toLowerCase (hostname u) = sub ++ lit "." ++ allowed).
Proof.
  destruct (validateRssUrl_allowlist basicURLParser) as (Hsub & Hevil & Honly).
  split; [|split].
  - exact (Hsub (lit "https://sub.example.com/feed.xml")
             (mkURL (lit "https") [] [] (Some (Domain (lit "sub.example.com")))
                None (lit "/feed.xml") None None)
             eq_refl eq_refl eq_refl).
  - exact (Hevil (lit "https://evilexample.com/feed.xml")
             (mkURL (lit "https") [] [] (Some (Domain (lit "evilexample.com")))
                None (lit "/feed.xml") None None)
             eq_refl eq_refl).
  - apply (Honly [lit "example.com"] (lit "https://sub.example.com/feed.xml")).
    + discriminate.
    + reflexivity.
Defined.



(** ** The feed cache *)

Section CacheProperties.
Variable stableHash : jsstring -> jsstring.
Variable CACHE_TTL_MS : Z.
Variable parseURL : list jsstring -> jsstring -> Js Feed.

Local Abbreviation get := (getFeed stableHash CACHE_TTL_MS parseURL).
Local Abbreviation hit := (cached CACHE_TTL_MS).

(** [getFeed] either answers from the cache and leaves the state as it
    is, or calls the upstream once. *)
Lemma getFeed_cases (rssUrl : jsstring) (force : bool) (now : Z)
    (st : Server) :
  (exists f,
      hit force now (cache st !! stableHash rssUrl) = Some f
      /\ get rssUrl force now st = (Ok f, st))
  \/ (hit force now (cache st !! stableHash rssUrl) = None
      /\ calls (snd (get rssUrl force now st)) = rssUrl :: calls st
      /\ fst (get rssUrl force now st) = parseURL (calls st) rssUrl).
Proof.
  unfold getFeed.
  destruct (hit force now _) as [f|]; [left; eauto|right].
  destruct (parseURL (calls st) rssUrl); auto.
Qed.

Lemma cached_force (now : Z) (existing : option CacheEntry) :
  hit true now existing = None.
Proof. destruct existing; reflexivity. Qed.

Lemma cached_within_ttl (now : Z) (e : CacheEntry) :
  (now - at_ e < CACHE_TTL_MS)%Z ->
  hit false now (Some e) = Some (feed e).
Proof.
  intros H. cbn. apply Z.ltb_lt in H. rewrite H. reflexivity.
Qed.

(** A successful fetch stores the feed with the time of the call. *)
Lemma getFeed_fetch_stores (rssUrl : jsstring) (force : bool) (now : Z)
    (st st' : Server) (f : Feed) :
  get rssUrl force now st = (Ok f, st') ->
  calls st' = rssUrl :: calls st ->
  cache st' !! stableHash rssUrl = Some (mkEntry now f).
Proof.
  unfold getFeed. intros Hget Hcalls.
  destruct (hit force now _) as [g|].
  - injection Hget as _ <-. exfalso.
    apply (f_equal length) in Hcalls. simpl in Hcalls. lia.
  - destruct (parseURL (calls st) rssUrl) as [g|err]; [|discriminate].
    injection Hget as <- <-. cbn. apply lookup_insert_eq.
Qed.

(** A call that hits a fresh entry returns its feed and does nothing
    else. *)
Lemma getFeed_hit (rssUrl : jsstring) (now : Z) (st : Server)
    (e : CacheEntry) :
  cache st !! stableHash rssUrl = Some e ->
  (now - at_ e < CACHE_TTL_MS)%Z ->
  get rssUrl false now st = (Ok (feed e), st).
Proof.
  intros He Hlt. unfold getFeed.
  rewrite He, (cached_within_ttl now e Hlt). reflexivity.
Qed.

(** A failed fetch leaves the whole map as it was. *)
Lemma getFeed_throw_cache (rssUrl : jsstring) (force : bool) (now : Z)
    (st : Server) (err : Exn) :
  fst (get rssUrl force now st) = Throw err ->
  cache (snd (get rssUrl force now st)) = cache st
  /\ parseURL (calls st) rssUrl = Throw err.
Proof.
  unfold getFeed.
  destruct (hit force now _) as [f|]; [discriminate|].
  destruct (parseURL (calls st) rssUrl) as [f|e]; [discriminate|].
  cbn. intros [= ->]. auto.
Qed.
End CacheProperties.

(** C3.  After a call of [getFeed] that fetched a feed with success at
    time [now1], a second call for the same URL without [force] at a time
    [now2] with [now2 - now1 < CACHE_TTL_MS] returns that feed and leaves
    the state as it is, so the upstream was called exactly once by the two
    calls; and a call with [force] always calls the upstream, whatever the
    cache holds. *)
Theorem getFeed_twice_within_ttl
    (stableHash : jsstring -> jsstring) (CACHE_TTL_MS : Z)
    (parseURL : list jsstring -> jsstring -> Js Feed) :
  (forall rssUrl now1 now2 st st1 f,
      getFeed stableHash CACHE_TTL_MS parseURL rssUrl false now1 st
      = (Ok f, st1) ->
      calls st1 = rssUrl :: calls st ->
      (now2 - now1 < CACHE_TTL_MS)%Z ->
      getFeed stableHash CACHE_TTL_MS parseURL rssUrl false now2 st1
      = (Ok f, st1)
      /\ length (calls st1) = S (length (calls st)))
  /\ (forall rssUrl now st,
         calls (snd (getFeed stableHash CACHE_TTL_MS parseURL rssUrl true now st))
         = rssUrl :: calls st).
Proof.
  split.
  - intros rssUrl now1 now2 st st1 f Hget Hcalls Hlt.
    pose proof (getFeed_fetch_stores _ _ _ _ _ _ _ _ _ Hget Hcalls) as He.
    split.
    + apply (getFeed_hit stableHash CACHE_TTL_MS parseURL rssUrl now2 st1
               (mkEntry now1 f) He Hlt).
    + rewrite Hcalls. reflexivity.
  - intros rssUrl now st.
    destruct (getFeed_cases stableHash CACHE_TTL_MS parseURL rssUrl true now st)
      as [(f & Hc & _) | (_ & Hcalls & _)].
    + rewrite cached_force in Hc. discriminate.
    + exact Hcalls.
Qed.

(** C4.  When an entry exists for the URL and a refresh, stale or forced,
    fails, the error reaches the caller and the map is unchanged, so that
    a later call without [force] within the time to live of the entry
    still returns its feed; and with no entry, a failure of the fetch
    reaches the caller and the map is unchanged. *)
Theorem getFeed_failure_keeps_cache
    (stableHash : jsstring -> jsstring) (CACHE_TTL_MS : Z)
    (parseURL : list jsstring -> jsstring -> Js Feed) :
  (forall rssUrl force now st e err,
      cache st !! stableHash rssUrl = Some e ->
      force = true \/ (CACHE_TTL_MS <= now - at_ e)%Z ->
      parseURL (calls st) rssUrl = Throw err ->
      let r := getFeed stableHash CACHE_TTL_MS parseURL rssUrl force now st in
      fst r = Throw err
      /\ cache (snd r) = cache st
      /\ forall later,
           (later - at_ e < CACHE_TTL_MS)%Z ->
           getFeed stableHash CACHE_TTL_MS parseURL rssUrl false later (snd r)
           = (Ok (feed e), snd r))
  /\ (forall rssUrl force now st err,
         cache st !! stableHash rssUrl = None ->
         parseURL (calls st) rssUrl = Throw err ->
         let r := getFeed stableHash CACHE_TTL_MS parseURL rssUrl force now st in
         fst r = Throw err /\ cache (snd r) = cache st).
Proof.
  split.
  - intros rssUrl force now st e err He Hstale Hfail r.
    assert (Hmiss : cached CACHE_TTL_MS force now (Some e) = None).
    { destruct Hstale as [-> | Hle]; [apply cached_force|].
      cbn. apply Z.ltb_ge in Hle. rewrite Hle, andb_false_r. reflexivity. }
    assert (Hr : r = (Throw err, mkServer (cache st) (rssUrl :: calls st))).
    { subst r. unfold getFeed. rewrite He, Hmiss, Hfail. reflexivity. }
    rewrite Hr. cbn [fst snd cache]. repeat split.
    intros later Hlt. apply getFeed_hit; assumption.
  - intros rssUrl force now st err Hnone Hfail r.
    subst r. unfold getFeed. rewrite Hnone, Hfail. cbn. auto.
Qed.

Lemma getFeed_twice_within_ttl_witness :
  let st1 :=
    snd (getFeed sampleHash 300000 upstreamUp sampleUrl false 1000 emptyServer)
  in
  getFeed sampleHash 300000 upstreamUp sampleUrl false 2000 st1
  = (Ok sampleFeed, st1)
  /\ length (calls st1) = 1%nat.
Proof.
  intros st1.
  apply (proj1 (getFeed_twice_within_ttl sampleHash 300000 upstreamUp)
           sampleUrl 1000%Z 2000%Z emptyServer st1 sampleFeed).
  - reflexivity.
  - reflexivity.
  - lia.
Defined.

Lemma getFeed_failure_keeps_cache_witness :
  let st1 :=
    snd (getFeed sampleHash 300000 upstreamOnce sampleUrl false 1000
           emptyServer) in
  let r := getFeed sampleHash 300000 upstreamOnce sampleUrl true 2000 st1 in
  let cold :=
    getFeed sampleHash 300000 upstreamOnce (lit "https://example.org/rss")
      false 2000 st1 in
  (fst r = Throw (FetchError (lit "ECONNREFUSED"))
   /\ cache (snd r) = cache st1
   /\ forall later,
        (later - 1000 < 300000)%Z ->
        getFeed sampleHash 300000 upstreamOnce sampleUrl false later (snd r)
        = (Ok sampleFeed, snd r))
  /\ (fst cold = Throw (FetchError (lit "ECONNREFUSED"))
      /\ cache (snd cold) = cache st1).
Proof.
  intros st1. split.
  - apply (proj1 (getFeed_failure_keeps_cache sampleHash 300000 upstreamOnce)
             sampleUrl true 2000%Z st1 (mkEntry 1000 sampleFeed)
             (FetchError (lit "ECONNREFUSED"))).
    + reflexivity.
    + left. reflexivity.
    + reflexivity.
  - apply (proj2 (getFeed_failure_keeps_cache sampleHash 300000 upstreamOnce)
             (lit "https://example.org/rss") false 2000%Z st1
             (FetchError (lit "ECONNREFUSED"))).
    + reflexivity.
    + reflexivity.
Defined.

(** ** Kind inference *)

Lemma includes_here (s p : jsstring) :
  startsWith s p = true -> includes s p = true.
Proof. intros H. destruct s; simpl; rewrite H; reflexivity. Qed.

Lemma includes_later (c : N) (s p : jsstring) :
  includes s p = true -> includes (c :: s) p = true.
Proof. intros H. simpl. rewrite H. apply orb_true_r. Qed.

Lemma includes_spec (s p : jsstring) :
  includes s p = true <-> occursIn p s.
Proof.
  unfold occursIn. split.
  - induction s as [|c s IH]; simpl; intros H.
    + rewrite orb_false_r in H. apply startsWith_spec in H as [r ->].
      exists [], r. reflexivity.
    + apply orb_true_iff in H as [H | H].
      * apply startsWith_spec in H as [r ->]. exists [], r. reflexivity.
      * destruct (IH H) as (before & after & ->).
        exists (c :: before), after. reflexivity.
  - intros (before & after & ->).
    induction before as [|c before IH].
    + rewrite app_nil_l. apply includes_here, startsWith_app.
    + apply includes_later, IH.
Qed.

Lemma extensionHere_spec (exts : list jsstring) (s : jsstring) :
  extensionHere exts s = true <->
  exists e after,
    In e exts /\ s = lit "." ++ e ++ after
    /\ (after = [] \/ exists r, after = 63 :: r \/ after = 35 :: r).
Proof.
  unfold extensionHere. change (lit ".") with [46]. split.
  - destruct s as [|c r]; [discriminate|].
    intros H. apply andb_true_iff in H as [Hc H].
    apply N.eqb_eq in Hc. subst c.
    apply existsb_exists in H as (e & Hin & H).
    apply andb_true_iff in H as [Hst Hend].
    apply startsWith_spec in Hst as [after ->].
    rewrite skipn_app, skipn_all, Nat.sub_diag in Hend. simpl in Hend.
    exists e, after. repeat split; [exact Hin|].
    destruct after as [|d after]; [left; reflexivity|right].
    exists after. apply orb_true_iff in Hend as [H | H];
      apply N.eqb_eq in H; subst d; auto.
  - intros (e & after & Hin & -> & Hafter). cbn [app].
    rewrite N.eqb_refl. cbn [andb].
    apply existsb_exists. exists e. split; [exact Hin|].
    rewrite startsWith_app, skipn_app, skipn_all, Nat.sub_diag. simpl.
    destruct Hafter as [-> | (r & [-> | ->])]; reflexivity.
Qed.

Lemma matchesExtension_here (exts : list jsstring) (s : jsstring) :
  extensionHere exts s = true -> matchesExtension exts s = true.
Proof.
  intros H. destruct s; [discriminate H|].
  cbn [matchesExtension]. rewrite H. reflexivity.
Qed.

Lemma matchesExtension_later (exts : list jsstring) (c : N) (s : jsstring) :
  matchesExtension exts s = true -> matchesExtension exts (c :: s) = true.
Proof. intros H. cbn [matchesExtension]. rewrite H. apply orb_true_r. Qed.

Lemma matchesExtension_spec (exts : list jsstring) (u : jsstring) :
  matchesExtension exts u = true <-> hasExtension exts u.
Proof.
  unfold hasExtension. split.
  - induction u as [|c u IH]; cbn [matchesExtension]; intros H.
    + discriminate H.
    + apply orb_true_iff in H as [H | H].
      * apply extensionHere_spec in H as (e & after & Hin & -> & Ha).
        exists [], e, after. auto.
      * destruct (IH H) as (before & e & after & Hin & -> & Ha).
        exists (c :: before), e, after. auto.
  - intros (before & e & after & Hin & -> & Ha).
    induction before as [|c before IH].
    + rewrite app_nil_l. apply matchesExtension_here, extensionHere_spec.
      eauto.
    + apply matchesExtension_later, IH.
Qed.

Lemma startsWith_false (s p : jsstring) :
  startsWith s p = false <-> ~ exists r, s = p ++ r.
Proof.
  rewrite <- startsWith_spec. destruct (startsWith s p); split;
    intros H; try reflexivity; try discriminate; try (intros H'; discriminate).
  exfalso. apply H. reflexivity.
Qed.

Lemma inferKind_strings (mediaUrl mediaType : jsstring) :
  inferKind (JString mediaUrl) (JString mediaType) =
    let u := toLowerCase mediaUrl in
    let t := toLowerCase mediaType in
    Ok (if startsWith t (lit "video/") then video
        else if startsWith t (lit "audio/") then audio
        else if includes u (lit ".m3u8") then video
        else if matchesExtension videoExtensions u then video
        else if matchesExtension audioExtensions u then audio
        else audio).
Proof.
  unfold inferKind.
  destruct mediaUrl as [|c mediaUrl], mediaType as [|d mediaType];
    reflexivity.
Qed.

(** C6.  Kind inference, on the lowered type [t] and the lowered URL [u],
    in this order: a type that begins with [video/] gives video; else a
    type that begins with [audio/] gives audio; else a URL that holds
    [.m3u8], or one of [.mp4], [.webm], [.mov] immediately before a query,
    a fragment or the end, gives video; else the kind is audio, whether one
    of [.mp3], [.m4a], [.aac], [.ogg], [.wav] is there or not.  The
    enclosure [{url: "a.mp3", type: "audio/mpeg"}] gives audio and the
    enclosure [{url: "a.mp4", type: ""}] gives video. *)
Theorem inferKind_priority (mediaUrl mediaType : jsstring) :
  let u := toLowerCase mediaUrl in
  let t := toLowerCase mediaType in
  let videoType := exists r, t = lit "video/" ++ r in
  let audioType := exists r, t = lit "audio/" ++ r in
  let videoUrl :=
    occursIn (lit ".m3u8") u \/ hasExtension videoExtensions u in
  (exists k,
      inferKind (JString mediaUrl) (JString mediaType) = Ok k
      /\ (videoType -> k = video)
      /\ (~ videoType -> audioType -> k = audio)
      /\ (~ videoType -> ~ audioType -> videoUrl -> k = video)
      /\ (~ videoType -> ~ audioType -> ~ videoUrl ->
          hasExtension audioExtensions u -> k = audio)
      /\ (~ videoType -> ~ audioType -> ~ videoUrl -> k = audio))
  /\ (forall dateToISOString idx,
         ep_kind <$>
           toEpisode dateToISOString
             (JObject [("enclosure"%string,
                        JObject [("url"%string, JString (lit "a.mp3"));
                                 ("type"%string, JString (lit "audio/mpeg"))])])
             idx
         = Ok audio)
  /\ (forall dateToISOString idx,
         ep_kind <$>
           toEpisode dateToISOString
             (JObject [("enclosure"%string,
                        JObject [("url"%string, JString (lit "a.mp4"));
                                 ("type"%string, JString [])])])
             idx
         = Ok video).
Proof.
  intros u t videoType audioType videoUrl.
  split; [|split; intros; reflexivity].
  rewrite inferKind_strings. cbv zeta. fold u t.
  eexists. split; [reflexivity|].
  subst videoType audioType videoUrl. cbv beta.
  rewrite <- !startsWith_spec, <- includes_spec, <- !matchesExtension_spec.
  destruct (startsWith t (lit "video/")), (startsWith t (lit "audio/")),
    (includes u (lit ".m3u8")), (matchesExtension videoExtensions u),
    (matchesExtension audioExtensions u);
    repeat split; intros; try reflexivity; try congruence;
    try tauto;
    try (exfalso; intuition congruence).
Qed.

Lemma inferKind_priority_witness :
  inferKind (JString (lit "https://cdn.example.com/Show.MOV?token=1"))
    (JString (lit "application/octet-stream"))
  = Ok video.
Proof.
  destruct (proj1 (inferKind_priority
                     (lit "https://cdn.example.com/Show.MOV?token=1")
                     (lit "application/octet-stream")))
    as (k & Hk & _ & _ & Hvideo & _).
  rewrite Hk. f_equal. apply Hvideo.
  - intros [r Hr]. discriminate Hr.
  - intros [r Hr]. discriminate Hr.
  - right. exists (lit "https://cdn.example.com/show"), (lit "mov"),
      (lit "?token=1").
    split; [right; right; left; reflexivity|].
    split; [reflexivity|]. right. exists (lit "token=1"). left. reflexivity.
Defined.

(** ** Descriptions *)

Lemma trimStart_suffix (s : jsstring) :
  exists w, s = w ++ trimStart s /\ forallb isWhite w = true.
Proof.
  induction s as [|c s (w & Hw & Hall)]; [exists []; auto|].
  simpl. destruct (isWhite c) eqn:Hc.
  - exists (c :: w). simpl. rewrite Hc, Hall. split; [congruence|reflexivity].
  - exists []. auto.
Qed.

Lemma trimEnd_prefix (s : jsstring) :
  exists w, s = trimEnd s ++ w /\ forallb isWhite w = true.
Proof.
  unfold trimEnd. destruct (trimStart_suffix (rev s)) as (w & Hw & Hall).
  exists (rev w). split.
  - rewrite <- rev_app_distr, <- Hw, rev_involutive. reflexivity.
  - rewrite forallb_forall in *. intros x Hx. apply Hall, in_rev, Hx.
Qed.

Lemma trimEnd_snoc (s : jsstring) (c : N) :
  trimEnd (s ++ [c]) = if isWhite c then trimEnd s else s ++ [c].
Proof.
  unfold trimEnd. rewrite rev_app_distr. simpl.
  destruct (isWhite c); [reflexivity|].
  simpl. rewrite rev_involutive. reflexivity.
Qed.

Lemma wellSpaced_app (b : bool) (x y : jsstring) :
  wellSpaced b (x ++ y) = true -> wellSpaced b x = true.
Proof.
  revert b. induction x as [|c x IH]; intros b; [reflexivity|].
  simpl. destruct (isWhite c).
  - rewrite !andb_true_iff. intros [Hc H]. split; [exact Hc|]. eapply IH, H.
  - apply IH.
Qed.

Lemma wellSpaced_collapseSpaces (b : bool) (x : jsstring) :
  wellSpaced b (collapseSpaces b x) = true.
Proof.
  revert b. induction x as [|c x IH]; intros b; [reflexivity|].
  simpl. destruct (isWhite c) eqn:Hc.
  - destruct b; [apply IH|].
    simpl. change (isWhite 32) with true. cbv iota. apply IH.
  - simpl. rewrite Hc. apply IH.
Qed.

Lemma wellSpaced_trimStart (b b' : bool) (s : jsstring) :
  wellSpaced b s = true -> wellSpaced b' (trimStart s) = true.
Proof.
  revert b. induction s as [|c s IH]; intros b; [reflexivity|].
  simpl. destruct (isWhite c) eqn:Hc.
  - rewrite !andb_true_iff. intros [_ H]. eapply IH, H.
  - simpl. rewrite Hc. trivial.
Qed.

Lemma wellSpaced_cleanText (str : JsVal) :
  wellSpaced true (cleanText str) = true.
Proof.
  unfold cleanText, trim.
  destruct (trimEnd_prefix (trimStart (collapseSpaces false (stripHtml str))))
    as (w & Hw & _).
  apply (wellSpaced_app true _ w). rewrite <- Hw.
  apply (wellSpaced_trimStart false), wellSpaced_collapseSpaces.
Qed.

Lemma wellSpaced_trimStart_id (s : jsstring) :
  wellSpaced true s = true -> trimStart s = s.
Proof.
  destruct s as [|c s]; [reflexivity|]. simpl.
  destruct (isWhite c); [discriminate|reflexivity].
Qed.

Lemma wellSpaced_last_two (b : bool) (p : jsstring) (d c : N) :
  wellSpaced b (p ++ [d; c]) = true -> isWhite c = true -> isWhite d = false.
Proof.
  revert b. induction p as [|e p IH]; intros b.
  - cbn [app wellSpaced]. intros H Hc. rewrite Hc in H.
    destruct (isWhite d); [|reflexivity].
    destruct b, (d =? 32); discriminate H.
  - simpl. destruct (isWhite e).
    + rewrite !andb_true_iff. intros [_ H]. eapply IH, H.
    + apply IH.
Qed.

Lemma wellSpaced_white_is_space (b : bool) (s : jsstring) (i : nat) :
  wellSpaced b s = true -> (i < length s)%nat ->
  isWhite (nth i s 0) = (nth i s 0 =? 32).
Proof.
  revert b i. induction s as [|c s IH]; intros b i H Hi; [simpl in Hi; lia|].
  simpl in H. destruct i as [|i]; simpl.
  - destruct (isWhite c) eqn:Hc.
    + rewrite !andb_true_iff in H. destruct H as [[_ H] _].
      symmetry. exact H.
    + destruct (N.eqb_spec c 32) as [->|]; [discriminate Hc|reflexivity].
  - simpl in Hi. destruct (isWhite c).
    + rewrite !andb_true_iff in H. destruct H as [_ H].
      eapply IH; [exact H|lia].
    + eapply IH; [exact H|lia].
Qed.

Lemma trim_wellSpaced_snoc (p : jsstring) (c : N) :
  wellSpaced true (p ++ [c]) = true ->
  trim (p ++ [c]) = if isWhite c then p else p ++ [c].
Proof.
  intros H. unfold trim. rewrite (wellSpaced_trimStart_id _ H), trimEnd_snoc.
  destruct (isWhite c) eqn:Hc; [|reflexivity].
  destruct p as [|e p' _] using rev_ind; [reflexivity|].
  rewrite trimEnd_snoc. rewrite <- app_assoc in H. cbn [app] in H.
  rewrite (wellSpaced_last_two true p' e c H Hc). reflexivity.
Qed.

Lemma firstn_snoc (s : jsstring) (i : nat) :
  (i < length s)%nat -> firstn (S i) s = firstn i s ++ [nth i s 0].
Proof.
  revert i. induction s as [|c s IH]; intros i Hi; [simpl in Hi; lia|].
  destruct i as [|i]; [reflexivity|].
  simpl in Hi. cbn [firstn nth app]. rewrite <- IH by lia. reflexivity.
Qed.

Lemma lacks_app (c : N) (a b : jsstring) :
  lacks c (a ++ b) = lacks c a && lacks c b.
Proof. apply forallb_app. Qed.

Lemma lacks_firstn (c : N) (k : nat) (s : jsstring) :
  lacks c s = true -> lacks c (firstn k s) = true.
Proof.
  intros H. rewrite <- (firstn_skipn k s), lacks_app in H.
  apply andb_true_iff in H as [H _]. exact H.
Qed.

Lemma lacks_trim (c : N) (s : jsstring) :
  lacks c s = true -> lacks c (trim s) = true.
Proof.
  intros H. unfold trim.
  destruct (trimStart_suffix s) as (w & Hw & _).
  destruct (trimEnd_prefix (trimStart s)) as (w' & Hw' & _).
  rewrite Hw, lacks_app in H. apply andb_true_iff in H as [_ H].
  rewrite Hw', lacks_app in H. apply andb_true_iff in H as [H _]. exact H.
Qed.

Lemma lacks_stripTags (b : bool) (s : jsstring) :
  lacks 60 (stripTags b s) = true.
Proof.
  revert b. induction s as [|c s IH]; intros b; [reflexivity|].
  simpl. destruct b; [apply IH|].
  destruct (c =? 60) eqn:Hc; [apply IH|].
  simpl. rewrite Hc. apply IH.
Qed.

Lemma lacks_collapseSpaces (b : bool) (s : jsstring) :
  lacks 60 s = true -> lacks 60 (collapseSpaces b s) = true.
Proof.
  revert b. induction s as [|c s IH]; intros b; [reflexivity|].
  cbn [lacks forallb collapseSpaces]. intros H.
  apply andb_true_iff in H as [Hc Hs].
  destruct (isWhite c); [destruct b|]; cbn [lacks forallb].
  - apply IH, Hs.
  - apply andb_true_iff. split; [reflexivity|]. apply IH, Hs.
  - apply andb_true_iff. split; [exact Hc|]. apply IH, Hs.
Qed.

(** No [<] is left in the text that [safeTruncate] cuts. *)
Lemma lacks_cleanText (str : JsVal) : lacks 60 (cleanText str) = true.
Proof.
  unfold cleanText. apply lacks_trim, lacks_collapseSpaces.
  unfold stripHtml. destruct (negb (truthy str)); [reflexivity|].
  apply lacks_stripTags.
Qed.

Lemma safeTruncate_cleanText (str : JsVal) (n : nat) :
  safeTruncate str n =
    if (n <? length (cleanText str))%nat
    then trim (firstn n (cleanText str)) ++ ellipsis
    else cleanText str.
Proof.
  unfold safeTruncate. fold (cleanText str).
  destruct (cleanText str) as [|c s] eqn:E; [|reflexivity].
  destruct n; reflexivity.
Qed.

(** The cut: one code unit shorter when the last one kept is a space. *)
Lemma trim_firstn_cleanText (str : JsVal) (n : nat) :
  (n < length (cleanText str))%nat ->
  trim (firstn n (cleanText str)) =
    firstn (if nth (n - 1) (cleanText str) 0 =? 32 then n - 1 else n)
      (cleanText str).
Proof.
  intros Hn. pose proof (wellSpaced_cleanText str) as Hws.
  destruct n as [|m].
  - cbn [Nat.sub firstn].
    destruct (cleanText str) as [|c s]; [simpl in Hn; lia|].
    cbn [nth]. simpl in Hws.
    destruct (N.eqb_spec c 32) as [->|]; [discriminate Hws|reflexivity].
  - replace (S m - 1)%nat with m by lia.
    rewrite <- (wellSpaced_white_is_space true _ m Hws) by lia.
    rewrite firstn_snoc by lia.
    rewrite trim_wellSpaced_snoc.
    + destruct (isWhite _); [reflexivity|]. rewrite firstn_snoc by lia.
      reflexivity.
    + rewrite <- firstn_snoc by lia.
      apply (wellSpaced_app true _ (skipn (S m) (cleanText str))).
      rewrite firstn_skipn. exact Hws.
Qed.

(** C8 (as amended).  Let [s] be the text of the input with its tags
    stripped, its white space collapsed and trimmed.  If [s] is longer
    than the budget [n], the description is the first [n] code units of
    [s], or the first [n - 1] when the [n]-th is a space, followed by the
    ellipsis: its length is [n + 1] or [n].  If [s] is at most [n] long,
    the description is [s].  In both cases it holds no [<]. *)
Theorem safeTruncate_budget (str : JsVal) (n : nat) :
  ((n < length (cleanText str))%nat ->
   safeTruncate str n =
     firstn (if nth (n - 1) (cleanText str) 0 =? 32 then n - 1 else n)
       (cleanText str) ++ ellipsis
   /\ length (safeTruncate str n) =
        S (if nth (n - 1) (cleanText str) 0 =? 32 then n - 1 else n))
  /\ ((length (cleanText str) <= n)%nat -> safeTruncate str n = cleanText str)
  /\ lacks 60 (safeTruncate str n) = true.
Proof.
  rewrite safeTruncate_cleanText. split; [|split].
  - intros Hn. apply Nat.ltb_lt in Hn as Hb. rewrite Hb.
    rewrite trim_firstn_cleanText by exact Hn. split; [reflexivity|].
    rewrite length_app, firstn_length_le; [simpl; lia|].
    destruct (_ =? 32); lia.
  - intros Hn. apply Nat.ltb_ge in Hn. rewrite Hn. reflexivity.
  - destruct (n <? _)%nat; [|apply lacks_cleanText].
    rewrite lacks_app. apply andb_true_iff. split; [|reflexivity].
    apply lacks_trim, lacks_firstn, lacks_cleanText.
Qed.

Lemma safeTruncate_budget_witness :
  safeTruncate (JString (lit "<b>Hello</b>   wonderful <i>world")) 8
  = lit "Hello wo" ++ ellipsis
  /\ length (safeTruncate (JString (lit "<b>Hello</b>   wonderful <i>world")) 8)
     = 9%nat.
Proof.
  apply (proj1 (safeTruncate_budget
                  (JString (lit "<b>Hello</b>   wonderful <i>world")) 8)).
  vm_compute. lia.
Defined.

(** The claim as it is written fails when the last code unit kept is a
    space: the clean text [ab cd] is longer than the budget 3, and the
    description is [ab] and the ellipsis, 3 code units and not 4. *)
Lemma safeTruncate_space_at_cut :
  (3 < length (cleanText (JString (lit "<p>ab cd</p>"))))%nat
  /\ safeTruncate (JString (lit "<p>ab cd</p>")) 3 = lit "ab" ++ ellipsis
  /\ length (safeTruncate (JString (lit "<p>ab cd</p>")) 3) <> 4%nat.
Proof.
  split; [vm_compute; lia|]. split; [reflexivity|]. vm_compute. lia.
Qed.

(** ** Episode records *)

Lemma replaceFirst_prefix (s pat rep : jsstring) :
  startsWith s pat = true ->
  replaceFirst s pat rep = rep ++ skipn (length pat) s.
Proof. intros H. destruct s; simpl; rewrite H; reflexivity. Qed.

Lemma normalizeToHttps_string (s : jsstring) :
  normalizeToHttps (JString s) = Ok (upgradeScheme s).
Proof.
  unfold normalizeToHttps, upgradeScheme.
  destruct s as [|c s]; [reflexivity|].
  cbn [truthy negb stringReceiver mbind Js_bind].
  destruct (startsWith (c :: s) (lit "http://")) eqn:H; [|reflexivity].
  rewrite replaceFirst_prefix by exact H. reflexivity.
Qed.

Lemma normalizeToHttps_Ok (v : JsVal) (r : jsstring) :
  truthy v = true -> normalizeToHttps v = Ok r ->
  exists s, v = JString s /\ r = upgradeScheme s.
Proof.
  intros Hv H. destruct v as [|s|props|elems|name]; try discriminate.
  rewrite normalizeToHttps_string in H. injection H as <-. eauto.
Qed.

Lemma upgradeScheme_http (r : jsstring) :
  upgradeScheme (lit "http://" ++ r) = lit "https://" ++ r.
Proof. reflexivity. Qed.

Lemma upgradeScheme_other (s : jsstring) :
  startsWith s (lit "http://") = false -> upgradeScheme s = s.
Proof. unfold upgradeScheme. intros ->. reflexivity. Qed.

(** [pickImageUrl] is the selection of the specification followed by
    [normalizeToHttps]. *)
Lemma pickImageUrl_selected (item : JsVal) (r : jsstring) :
  pickImageUrl item = Ok r ->
  exists s, selectedImage item = Ok (JString s) /\ r = upgradeScheme s.
Proof.
  unfold pickImageUrl, selectedImage.
  destruct (getProp item "mediaThumbnail") as [mt|]; [|discriminate].
  cbn [mbind Js_bind].
  match goal with
  | |- mbind _ ?m = _ -> _ => destruct m as [tn|]; [|discriminate]
  end.
  cbn [mbind Js_bind].
  destruct (truthy tn) eqn:Htn.
  { intros H. destruct (normalizeToHttps_Ok tn r Htn H) as (s & -> & ->).
    eauto. }
  destruct (getProp item "itunesImage") as [im|]; [|discriminate].
  cbn [mbind Js_bind].
  destruct (truthy im) eqn:Him;
    [|intros [= <-]; exists []; split; reflexivity].
  destruct (isString im) eqn:Hs.
  { intros H. destruct (normalizeToHttps_Ok im r Him H) as (s & -> & ->).
    eauto. }
  destruct (getProp im "href") as [href|]; [|discriminate].
  cbn [mbind Js_bind].
  destruct (truthy href) eqn:Hhref.
  { intros H. destruct (normalizeToHttps_Ok href r Hhref H) as (s & -> & ->).
    eauto. }
  destruct (getProp im "url") as [url|]; [|discriminate].
  cbn [mbind Js_bind].
  destruct (truthy url) eqn:Hurl;
    [|intros [= <-]; exists []; split; reflexivity].
  intros H. destruct (normalizeToHttps_Ok url r Hurl H) as (s & -> & ->).
  eauto.
Qed.

Local Ltac js_bind_inv :=
  repeat match goal with
         | |- mbind _ ?m = Ok _ -> _ =>
             let E := fresh "E" in
             destruct m eqn:E; cbn [mbind Js_bind]; [|discriminate]
         end.

(** What a record holds when the callback of [map] returns one. *)
Lemma toEpisode_Ok (dateToISOString : JsVal -> Js jsstring) (it : JsVal)
    (idx : nat) (e : Episode) :
  toEpisode dateToISOString it idx = Ok e ->
  exists m,
    pickMedia it = Ok m
    /\ inferKind (orElse (media_url m) (JString [])) (media_type m)
       = Ok (ep_kind e)
    /\ pickImageUrl it = Ok (ep_imageUrl e)
    /\ ep_id e = idx
    /\ ep_mediaUrl e = orElse (media_url m) (JString [])
    /\ ep_mediaType e = orElse (media_type m) (JString []).
Proof.
  unfold toEpisode. js_bind_inv. intros [= <-]. cbn.
  eexists. repeat split; eassumption.
Qed.

(** C7 (as amended).  In every record, the image URL is the selected
    image with a leading [http://] rewritten to [https://] and nothing
    else changed, so it never begins with [http://]; the media URL is the
    selected media URL as it is, whatever its scheme. *)
Theorem toEpisode_scheme_upgrade (dateToISOString : JsVal -> Js jsstring)
    (it : JsVal) (idx : nat) (e : Episode) :
  toEpisode dateToISOString it idx = Ok e ->
  (exists s,
      selectedImage it = Ok (JString s)
      /\ ep_imageUrl e = upgradeScheme s
      /\ (forall r, s = lit "http://" ++ r -> ep_imageUrl e = lit "https://" ++ r)
      /\ (startsWith s (lit "http://") = false -> ep_imageUrl e = s)
      /\ startsWith (ep_imageUrl e) (lit "http://") = false)
  /\ (exists m,
         pickMedia it = Ok m
         /\ ep_mediaUrl e = orElse (media_url m) (JString [])).
Proof.
  intros H. apply toEpisode_Ok in H as (m & Hm & _ & Himg & _ & Hurl & _).
  split; [|eauto].
  apply pickImageUrl_selected in Himg as (s & Hsel & ->).
  exists s. split; [exact Hsel|]. split; [reflexivity|].
  split; [intros r ->; apply upgradeScheme_http|].
  split; [apply upgradeScheme_other|].
  unfold upgradeScheme. destruct (startsWith s (lit "http://")) eqn:Hs;
    [reflexivity | exact Hs].
Qed.

Lemma toEpisode_scheme_upgrade_witness :
  exists e,
    toEpisode sampleDate itemHttp 0 = Ok e
    /\ ep_imageUrl e = lit "https://img.example.com/a.jpg".
Proof.
  destruct (toEpisode sampleDate itemHttp 0) as [e|] eqn:E;
    [|vm_compute in E; discriminate E].
  exists e. split; [reflexivity|].
  destruct (toEpisode_scheme_upgrade sampleDate itemHttp 0 e E)
    as [(s & Hsel & _ & Hup & _) _].
  vm_compute in Hsel. injection Hsel as <-.
  apply (Hup (lit "img.example.com/a.jpg")). reflexivity.
Defined.

(** The claim as it is written fails for the media URL: the enclosure
    [http://cdn.example.com/a.mp3] is selected and the record holds it
    with its [http] scheme. *)
Lemma toEpisode_media_url_kept :
  exists e m,
    toEpisode sampleDate itemHttp 0 = Ok e
    /\ pickMedia itemHttp = Ok m
    /\ media_url m = JString (lit "http://" ++ lit "cdn.example.com/a.mp3")
    /\ ep_mediaUrl e <> JString (lit "https://" ++ lit "cdn.example.com/a.mp3")
    /\ ep_mediaUrl e = JString (lit "http://cdn.example.com/a.mp3").
Proof.
  eexists. eexists.
  split; [vm_compute; reflexivity|].
  split; [vm_compute; reflexivity|].
  split; [reflexivity|]. split; [discriminate|reflexivity].
Qed.

(** The result of [map] holds, at each position, the record of the item
    at that position. *)
Lemma mapIndexed_Ok {A B} (f : A -> nat -> Js B) (k : nat) (items : list A)
    (out : list B) :
  mapIndexed f k items = Ok out ->
  length out = length items
  /\ forall i y, out !! i = Some y ->
                 exists x, items !! i = Some x /\ f x (k + i)%nat = Ok y.
Proof.
  revert k out. induction items as [|x items IH]; intros k out.
  - intros [= <-]. split; [reflexivity|]. intros i y H. discriminate H.
  - cbn [mapIndexed].
    destruct (f x k) as [a|] eqn:E; [|discriminate]. cbn [mbind Js_bind].
    destruct (mapIndexed f (S k) items) as [l|] eqn:E0; [|discriminate].
    cbn [mbind Js_bind]. intros [= <-].
    destruct (IH _ _ E0) as [Hlen Hnth]. split; [simpl; congruence|].
    intros [|i] y Hy.
    + injection Hy as <-. exists x. rewrite Nat.add_0_r. auto.
    + destruct (Hnth i y Hy) as (x' & Hx' & Hf).
      exists x'. split; [exact Hx'|].
      replace (k + S i)%nat with (S k + i)%nat by lia. exact Hf.
Qed.

Lemma mapIndexed_total {A B} (f : A -> nat -> Js B) (k : nat)
    (items : list A) :
  (forall x i, In x items -> exists y, f x i = Ok y) ->
  exists out, mapIndexed f k items = Ok out.
Proof.
  revert k. induction items as [|x items IH]; intros k Hf.
  - exists []. reflexivity.
  - destruct (Hf x k (or_introl eq_refl)) as [y Hy].
    destruct (IH (S k) (fun x' i H => Hf x' i (or_intror H))) as [out Hout].
    exists (y :: out). cbn [mapIndexed]. rewrite Hy. cbn [mbind Js_bind].
    rewrite Hout. reflexivity.
Qed.

Lemma mapIndexed_sorted {A} (f : A -> nat -> Js Episode) (keep : Episode -> bool)
    (k : nat) (items : list A) (out : list Episode) :
  (forall x i y, f x i = Ok y -> ep_id y = i) ->
  mapIndexed f k items = Ok out ->
  StronglySorted lt (List.map ep_id (List.filter keep out))
  /\ Forall (fun e => (k <= ep_id e)%nat) (List.filter keep out).
Proof.
  intros Hid. revert k out.
  induction items as [|x items IH]; intros k out.
  - intros [= <-]. split; constructor.
  - cbn [mapIndexed].
    destruct (f x k) as [a|] eqn:E; [|discriminate]. cbn [mbind Js_bind].
    destruct (mapIndexed f (S k) items) as [l|] eqn:E0; [|discriminate].
    cbn [mbind Js_bind]. intros [= <-].
    destruct (IH _ _ E0) as [Hs Hge].
    assert (Hge' : Forall (fun e => (k <= ep_id e)%nat) (List.filter keep l)).
    { eapply List.Forall_impl; [|exact Hge]. cbv beta. intros; lia. }
    cbn [List.filter]. destruct (keep a); [|auto].
    apply Hid in E. split.
    + cbn [List.map]. constructor; [exact Hs|].
      rewrite List.Forall_map. eapply List.Forall_impl; [|exact Hge].
      cbv beta. intros; lia.
    + constructor; [lia | exact Hge'].
Qed.

Lemma pickMedia_nothing (props : list (string * JsVal)) :
  lookupProp "enclosure" props = JUndefined ->
  lookupProp "mediaContent" props = JUndefined ->
  truthy (lookupProp "link" props) = false ->
  pickMedia (JObject props) = Ok (mkMedia (JString []) (JString [])).
Proof.
  intros He Hm Hl. unfold pickMedia. cbn [getProp mbind Js_bind].
  rewrite He. cbn [truthy mbind Js_bind]. rewrite Hm.
  cbn [truthy mbind Js_bind]. unfold orElse. rewrite Hl. reflexivity.
Qed.

(** C5 (as amended).  The records that [episodes] returns all have a
    media URL; each is the record of the item found at position [id] of
    the truncated input, so the [id] of a record is the position of its
    item before the filter, and the ids grow strictly along the output
    without having to be consecutive; every item whose record has a media
    URL is kept; and an item with no enclosure, no media content and an
    empty link gives no record. *)
Theorem episodes_ids (dateToISOString : JsVal -> Js jsstring) (EP_LIMIT : Z)
    (items : list JsVal) (out : list Episode) :
  episodes dateToISOString EP_LIMIT items = Ok out ->
  Forall (fun e => truthy (ep_mediaUrl e) = true) out
  /\ (forall e,
         In e out ->
         exists it,
           slice0 EP_LIMIT items !! ep_id e = Some it
           /\ toEpisode dateToISOString it (ep_id e) = Ok e)
  /\ StronglySorted lt (List.map ep_id out)
  /\ (forall i it e,
         slice0 EP_LIMIT items !! i = Some it ->
         toEpisode dateToISOString it i = Ok e ->
         truthy (ep_mediaUrl e) = true ->
         In e out)
  /\ (forall i props,
         slice0 EP_LIMIT items !! i = Some (JObject props) ->
         lookupProp "enclosure" props = JUndefined ->
         lookupProp "mediaContent" props = JUndefined ->
         truthy (lookupProp "link" props) = false ->
         forall e, In e out -> ep_id e <> i).
Proof.
  unfold episodes.
  destruct (mapIndexed _ 0 _) as [mapped|] eqn:Hmap; [|discriminate].
  cbn [mbind Js_bind]. intros [= <-].
  destruct (mapIndexed_Ok _ _ _ _ Hmap) as [Hlen Hnth].
  assert (Hkept : Forall (fun e => truthy (ep_mediaUrl e) = true)
                    (List.filter (fun e => truthy (ep_mediaUrl e)) mapped)).
  { apply List.Forall_forall. intros e He. apply filter_In in He. tauto. }
  assert (Hsrc : forall e,
             In e (List.filter (fun e => truthy (ep_mediaUrl e)) mapped) ->
             exists it,
               slice0 EP_LIMIT items !! ep_id e = Some it
               /\ toEpisode dateToISOString it (ep_id e) = Ok e).
  { intros e He. apply filter_In in He as [He _].
    apply list_elem_of_In, list_elem_of_lookup in He as [j Hj].
    destruct (Hnth j e Hj) as (it & Hit & Hf). cbn [Nat.add] in Hf.
    destruct (toEpisode_Ok _ _ _ _ Hf) as (_ & _ & _ & _ & Hid & _).
    rewrite Hid. eauto. }
  split; [exact Hkept|]. split; [exact Hsrc|]. split; [|split].
  - eapply mapIndexed_sorted; [|exact Hmap].
    intros x i y Hy.
    destruct (toEpisode_Ok _ _ _ _ Hy) as (_ & _ & _ & _ & Hid & _).
    exact Hid.
  - intros i it e Hit He Hurl. apply filter_In. split; [|exact Hurl].
    assert (Hi : (i < length mapped)%nat).
    { rewrite Hlen. apply lookup_lt_is_Some. eauto. }
    apply lookup_lt_is_Some in Hi as [e' He'].
    destruct (Hnth i e' He') as (it' & Hit' & Hf). cbn [Nat.add] in Hf.
    assert (it' = it) by congruence. subst it'.
    assert (e' = e) by congruence. subst e'.
    apply list_elem_of_In, list_elem_of_lookup. eauto.
  - intros i props Hit Henc Hmc Hlink e He <-.
    destruct (Hsrc e He) as (it & Hit' & Hf).
    assert (it = JObject props) by congruence. subst it.
    destruct (toEpisode_Ok _ _ _ _ Hf) as (m & Hm & _ & _ & _ & Hurl & _).
    rewrite (pickMedia_nothing props Henc Hmc Hlink) in Hm.
    injection Hm as <-. cbn in Hurl.
    rewrite List.Forall_forall in Hkept. specialize (Hkept e He).
    rewrite Hurl in Hkept. discriminate Hkept.
Qed.

Lemma episodes_ids_witness :
  exists e,
    episodes sampleDate 100 [itemBare; itemHttp] = Ok [e]
    /\ [itemBare; itemHttp] !! ep_id e = Some itemHttp.
Proof.
  destruct (episodes sampleDate 100 [itemBare; itemHttp]) as [out|] eqn:E;
    [|vm_compute in E; discriminate E].
  destruct (episodes_ids sampleDate 100 [itemBare; itemHttp] out E)
    as (_ & Hsrc & _).
  assert (Hout : exists e, out = [e]).
  { vm_compute in E. injection E as <-. eauto. }
  destruct Hout as [e ->]. exists e. split; [reflexivity|].
  destruct (Hsrc e (or_introl eq_refl)) as (it & Hit & Hf).
  change (slice0 100 [itemBare; itemHttp]) with [itemBare; itemHttp] in Hit.
  rewrite Hit. f_equal.
  destruct (ep_id e) as [|[|n]]; cbn in Hit; try discriminate Hit.
  - injection Hit as <-. vm_compute in E. injection E as <-.
    vm_compute in Hf. discriminate Hf.
  - congruence.
Defined.

(** The claim as it is written fails for the [id]: of two items, the
    first with nothing to play, the only record returned is at position 0
    of the output and has the [id] 1. *)
Lemma episodes_id_gap :
  exists e,
    episodes sampleDate 100 [itemBare; itemHttp] = Ok [e]
    /\ [e] !! 0%nat = Some e
    /\ ep_id e = 1%nat
    /\ ep_id e <> 0%nat.
Proof.
  eexists. split; [vm_compute; reflexivity|].
  split; [reflexivity|]. split; [reflexivity|discriminate].
Qed.

(** ** Totality on raw items *)

Lemma optionalString_orElse (v : JsVal) :
  optionalString v = true ->
  exists s, orElse v (JString []) = JString s.
Proof. destruct v as [|[|c s]| | |]; try discriminate; eauto. Qed.

Lemma optionalAttrs_get (keys : list string) (v : JsVal) (k : string) :
  optionalAttrs keys v = true -> In k keys -> truthy v = true ->
  exists x, getProp v k = Ok x /\ optionalString x = true.
Proof.
  destruct v as [| s | props | elems | name]; try discriminate.
  cbn [optionalAttrs getProp]. intros H Hk _.
  rewrite forallb_forall in H. eauto.
Qed.

Lemma optionalNodes_first (keys : list string) (v : JsVal) :
  optionalNodes keys v = true -> truthy v = true ->
  exists mc,
    getFirst v = Ok mc
    /\ (truthy mc = true ->
        exists attrs,
          getProp mc "$" = Ok attrs /\ optionalAttrs keys attrs = true).
Proof.
  destruct v as [| s | props | elems | name]; try discriminate.
  intros H _. destruct elems as [|el elems].
  - exists JUndefined. split; [reflexivity|]. discriminate.
  - exists el. split; [reflexivity|]. intros _.
    cbn [optionalNodes forallb] in H. apply andb_true_iff in H as [H _].
    destruct el as [| | p | |]; try discriminate H.
    cbn [getProp]. eauto.
Qed.

Local Ltac js_falsy H :=
  repeat (cbn [mbind Js_bind]; rewrite H); cbn [mbind Js_bind].

Lemma pickMedia_raw (props : list (string * JsVal)) :
  optionalAttrs ["url"; "type"]%string (lookupProp "enclosure" props) = true ->
  optionalNodes ["url"; "type"]%string (lookupProp "mediaContent" props) = true ->
  optionalString (lookupProp "link" props) = true ->
  exists m,
    pickMedia (JObject props) = Ok m
    /\ optionalString (media_url m) = true
    /\ optionalString (media_type m) = true.
Proof.
  intros Henc Hmc Hlink. unfold pickMedia. cbn [getProp mbind Js_bind].
  set (enc := lookupProp "enclosure" props) in *.
  set (mcs := lookupProp "mediaContent" props) in *.
  set (link := lookupProp "link" props) in *.
  assert (Hlast : exists m,
             Ok (mkMedia (orElse link (JString [])) (JString [])) = Ok m
             /\ optionalString (media_url m) = true
             /\ optionalString (media_type m) = true).
  { destruct (optionalString_orElse link Hlink) as [s ->]. eauto. }
  assert (Hafter : exists m,
             (mc ← (if truthy mcs then getFirst mcs else Ok mcs);
              attrs ← (if truthy mc then getProp mc "$" else Ok mc);
              mcUrl ← (if truthy attrs then getProp attrs "url" else Ok attrs);
              if truthy mcUrl then
                ty ← getProp attrs "type";
                Ok (mkMedia mcUrl (orElse ty (JString [])))
              else Ok (mkMedia (orElse link (JString [])) (JString []))) = Ok m
             /\ optionalString (media_url m) = true
             /\ optionalString (media_type m) = true).
  { destruct (truthy mcs) eqn:Hmcs; cbn [mbind Js_bind];
      [|js_falsy Hmcs; exact Hlast].
    destruct (optionalNodes_first _ mcs Hmc Hmcs) as (mc & -> & Hmc').
    cbn [mbind Js_bind].
    destruct (truthy mc) eqn:Htmc; cbn [mbind Js_bind];
      [|js_falsy Htmc; exact Hlast].
    destruct (Hmc' eq_refl) as (attrs & -> & Hattrs).
    cbn [mbind Js_bind].
    destruct (truthy attrs) eqn:Hta; cbn [mbind Js_bind];
      [|js_falsy Hta; exact Hlast].
    destruct (optionalAttrs_get _ attrs "url" Hattrs) as (u & -> & Hu);
      [left; reflexivity | exact Hta |].
    cbn [mbind Js_bind].
    destruct (truthy u) eqn:Htu; [|exact Hlast].
    destruct (optionalAttrs_get _ attrs "type" Hattrs) as (ty & -> & Hty);
      [right; left; reflexivity | exact Hta |].
    cbn [mbind Js_bind].
    destruct (optionalString_orElse ty Hty) as [s ->]. eauto. }
  destruct (truthy enc) eqn:Htenc; cbn [mbind Js_bind];
    [|js_falsy Htenc; exact Hafter].
  destruct (optionalAttrs_get _ enc "url" Henc) as (u & -> & Hu);
    [left; reflexivity | exact Htenc |].
  cbn [mbind Js_bind].
  destruct (truthy u) eqn:Htu; [|exact Hafter].
  destruct (optionalAttrs_get _ enc "type" Henc) as (ty & -> & Hty);
    [right; left; reflexivity | exact Htenc |].
  cbn [mbind Js_bind].
  destruct (optionalString_orElse ty Hty) as [s ->]. eauto.
Qed.

Lemma normalizeToHttps_optional (v : JsVal) :
  optionalString v = true -> exists r, normalizeToHttps v = Ok r.
Proof.
  destruct v as [| s | | |]; try discriminate; intros _.
  - exists []. reflexivity.
  - rewrite normalizeToHttps_string. eauto.
Qed.

Lemma pickImageUrl_raw (props : list (string * JsVal)) :
  optionalNodes ["url"]%string (lookupProp "mediaThumbnail" props) = true ->
  optionalImage (lookupProp "itunesImage" props) = true ->
  exists r, pickImageUrl (JObject props) = Ok r.
Proof.
  intros Hmt Him. unfold pickImageUrl. cbn [getProp mbind Js_bind].
  set (mt := lookupProp "mediaThumbnail" props) in *.
  set (im := lookupProp "itunesImage" props) in *.
  assert (Hafter : exists r,
             (if truthy im then
                if isString im then normalizeToHttps im
                else
                  href ← getProp im "href";
                  if truthy href then normalizeToHttps href
                  else
                    url ← getProp im "url";
                    if truthy url then normalizeToHttps url else Ok []
              else Ok []) = Ok r).
  { destruct (truthy im) eqn:Htim; [|eauto].
    destruct im as [| s | p | l | name]; try discriminate.
    - apply normalizeToHttps_optional. reflexivity.
    - cbn [isString].
      destruct (optionalAttrs_get _ (JObject p) "href" Him) as (h & -> & Hh);
        [left; reflexivity | reflexivity |].
      cbn [mbind Js_bind].
      destruct (truthy h); [apply normalizeToHttps_optional, Hh|].
      destruct (optionalAttrs_get _ (JObject p) "url" Him) as (u & -> & Hu);
        [right; left; reflexivity | reflexivity |].
      cbn [mbind Js_bind].
      destruct (truthy u); [apply normalizeToHttps_optional, Hu|eauto]. }
  destruct (truthy mt) eqn:Htmt; cbn [mbind Js_bind];
    [|js_falsy Htmt; exact Hafter].
  destruct (optionalNodes_first _ mt Hmt Htmt) as (mt0 & -> & Hmt0).
  cbn [mbind Js_bind].
  destruct (truthy mt0) eqn:Ht0; cbn [mbind Js_bind];
    [|js_falsy Ht0; exact Hafter].
  destruct (Hmt0 eq_refl) as (attrs & -> & Hattrs). cbn [mbind Js_bind].
  destruct (truthy attrs) eqn:Hta; cbn [mbind Js_bind];
    [|js_falsy Hta; exact Hafter].
  destruct (optionalAttrs_get _ attrs "url" Hattrs) as (u & -> & Hu);
    [left; reflexivity | exact Hta |].
  cbn [mbind Js_bind].
  destruct (truthy u); [apply normalizeToHttps_optional, Hu|exact Hafter].
Qed.

Lemma inferKind_optional (mediaUrl mediaType : JsVal) :
  optionalString mediaUrl = true -> optionalString mediaType = true ->
  exists k, inferKind mediaUrl mediaType = Ok k.
Proof.
  intros Hu Ht. unfold inferKind.
  destruct (optionalString_orElse _ Hu) as [u ->].
  destruct (optionalString_orElse _ Ht) as [t ->].
  cbn. eauto.
Qed.

Lemma rawItem_fields (dateToISOString : JsVal -> Js jsstring)
    (props : list (string * JsVal)) :
  rawItem dateToISOString (JObject props) = true ->
  (forall k,
      In k ["title"; "link"; "pubDate"; "isoDate"; "contentSnippet"; "content";
            "duration"]%string ->
      optionalString (lookupProp k props) = true)
  /\ (truthy (lookupProp "isoDate" props) = true ->
      exists s, dateToISOString (lookupProp "isoDate" props) = Ok s)
  /\ optionalAttrs ["url"; "type"]%string (lookupProp "enclosure" props) = true
  /\ optionalNodes ["url"; "type"]%string (lookupProp "mediaContent" props)
     = true
  /\ optionalNodes ["url"]%string (lookupProp "mediaThumbnail" props) = true
  /\ optionalImage (lookupProp "itunesImage" props) = true.
Proof.
  cbn [rawItem]. rewrite !andb_true_iff, forallb_forall.
  intros [[[[[Hs Hd] He] Hm] Ht] Hi]. repeat split; try assumption.
  intros Hiso. rewrite Hiso in Hd. cbn in Hd.
  destruct (dateToISOString _); [eauto | discriminate Hd].
Qed.

(** On a raw item the callback of [map] returns a record. *)
Lemma toEpisode_raw (dateToISOString : JsVal -> Js jsstring) (it : JsVal)
    (idx : nat) :
  rawItem dateToISOString it = true ->
  exists e, toEpisode dateToISOString it idx = Ok e.
Proof.
  destruct it as [| | props | |]; try discriminate. intros Hraw.
  destruct (rawItem_fields _ _ Hraw) as (Hs & Hd & He & Hm & Ht & Hi).
  unfold toEpisode.
  destruct (pickMedia_raw props He Hm) as (m & -> & Hu & Hty);
    [apply Hs; simpl; tauto|].
  cbn [mbind Js_bind].
  destruct (optionalString_orElse _ Hu) as [u Hu'].
  destruct (inferKind_optional (orElse (media_url m) (JString []))
              (media_type m)) as [k ->];
    [rewrite Hu'; reflexivity | exact Hty |].
  cbn [getProp mbind Js_bind].
  destruct (pickImageUrl_raw props Ht Hi) as [img Himg].
  destruct (truthy (lookupProp "isoDate" props)) eqn:Hiso.
  - destruct (Hd eq_refl) as [s ->]. cbn [fmap Js_fmap mbind Js_bind].
    rewrite Himg. cbn [mbind Js_bind]. eauto.
  - cbn [mbind Js_bind]. rewrite Himg. cbn [mbind Js_bind]. eauto.
Qed.





Lemma slice0_In {A} (limit : Z) (items : list A) (x : A) :
  In x (slice0 limit items) -> In x items.
Proof.
  unfold slice0. destruct (limit <? 0)%Z; intros H;
    match type of H with
    | In _ (firstn ?k _) =>
        rewrite <- (firstn_skipn k items); apply in_or_app; left; exact H
    end.
Qed.




(** An item that is a string throws as well: its [link] is the method
    of that name. *)
Example episodes_throws_on_string_item :
  episodes sampleDate 100 [JString (lit "abc")] = Throw TypeError.
Proof. vm_compute. reflexivity. Qed.

(** A date that the platform cannot read makes [toISOString] throw a
    [RangeError], whatever else the item holds; the feed parser sets
    [isoDate] only to the result of a successful [toISOString]. *)
Lemma toEpisode_invalid_date (dateToISOString : JsVal -> Js jsstring)
    (props : list (string * JsVal)) (idx : nat) :
  rawItem (fun _ => Ok []) (JObject props) = true ->
  truthy (lookupProp "isoDate" props) = true ->
  dateToISOString (lookupProp "isoDate" props) = Throw RangeError ->
  toEpisode dateToISOString (JObject props) idx = Throw RangeError.
Proof.
  intros Hraw Hiso Hdate.
  destruct (rawItem_fields _ _ Hraw) as (Hs & _ & He & Hm & _ & _).
  unfold toEpisode.
  destruct (pickMedia_raw props He Hm) as (m & -> & Hu & Hty);
    [apply Hs; simpl; tauto|].
  cbn [mbind Js_bind].
  destruct (optionalString_orElse _ Hu) as [u Hu'].
  destruct (inferKind_optional (orElse (media_url m) (JString []))
              (media_type m)) as [k ->];
    [rewrite Hu'; reflexivity | exact Hty |].
  cbn [getProp mbind Js_bind]. rewrite Hiso, Hdate. reflexivity.
Qed.

(* ================================================================== *)
(** * Further properties of the server *)
(* ================================================================== *)

(** ** Escaping for HTML *)

Lemma replaceUnit_app (c : N) (r a b : jsstring) :
  replaceUnit c r (a ++ b) = replaceUnit c r a ++ replaceUnit c r b.
Proof. apply flat_map_app. Qed.

Lemma replaceUnit_cons (c : N) (r : jsstring) (x : N) (s : jsstring) :
  replaceUnit c r (x :: s) = (if x =? c then r else [x]) ++ replaceUnit c r s.
Proof. reflexivity. Qed.

(** The five replacements in a row amount to one pass. *)
Lemma escapeHtml_one_pass (s : jsstring) :
  escapeHtml (JString s) = flat_map escapeUnit s.
Proof.
  unfold escapeHtml. destruct s as [|c0 s0]; [reflexivity|].
  cbn [truthy negb toStringJs]. generalize (c0 :: s0). clear c0 s0.
  intros s. induction s as [|c s IH]; [reflexivity|].
  rewrite (replaceUnit_cons 38), !replaceUnit_app, IH. cbn [flat_map].
  f_equal. unfold escapeUnit.
  destruct (N.eqb_spec c 38) as [->|H38]; [reflexivity|].
  destruct (N.eqb_spec c 60) as [->|H60]; [reflexivity|].
  destruct (N.eqb_spec c 62) as [->|H62]; [reflexivity|].
  destruct (N.eqb_spec c 34) as [->|H34]; [reflexivity|].
  destruct (N.eqb_spec c 39) as [->|H39]; [reflexivity|].
  unfold replaceUnit. cbn [flat_map app].
  repeat match goal with
         | H : c <> ?k |- context [c =? ?k] =>
             rewrite (proj2 (N.eqb_neq c k) H); cbn [flat_map app]
         end.
  reflexivity.
Qed.

Lemma escapeHtml_flat_map (str : JsVal) :
  escapeHtml str =
    if truthy str then flat_map escapeUnit (toStringJs str) else [].
Proof.
  destruct (truthy str) eqn:Ht.
  - rewrite <- escapeHtml_one_pass. unfold escapeHtml. rewrite Ht.
    cbn [negb toStringJs].
    destruct (toStringJs str) as [|c s] eqn:E; reflexivity.
  - unfold escapeHtml. rewrite Ht. reflexivity.
Qed.

Lemma escapeUnit_safe (c : N) (r : jsstring) :
  forallb (fun x => negb (isMarkupUnit x)) (escapeUnit c) = true
  /\ ampersandsEscaped (escapeUnit c ++ r) = ampersandsEscaped r.
Proof.
  unfold escapeUnit.
  destruct (N.eqb_spec c 38) as [->|H38]; [split; reflexivity|].
  destruct (N.eqb_spec c 60) as [->|H60]; [split; reflexivity|].
  destruct (N.eqb_spec c 62) as [->|H62]; [split; reflexivity|].
  destruct (N.eqb_spec c 34) as [->|H34]; [split; reflexivity|].
  destruct (N.eqb_spec c 39) as [->|H39]; [split; reflexivity|].
  split.
  - cbn [forallb]. unfold isMarkupUnit.
    rewrite (proj2 (N.eqb_neq c 60) H60), (proj2 (N.eqb_neq c 62) H62),
      (proj2 (N.eqb_neq c 34) H34), (proj2 (N.eqb_neq c 39) H39).
    reflexivity.
  - cbn [app ampersandsEscaped].
    rewrite (proj2 (N.eqb_neq c 38) H38). reflexivity.
Qed.

(** X1.  The text that [escapeHtml] returns holds none of [<], [>], the
    double quote and the single quote, and each of its ampersands begins
    one of the references
    [&amp;], [&lt;], [&gt;], [&quot;] and [&#039;]: whatever the input, the
    result cannot open or close a tag or an attribute value. *)
Theorem escapeHtml_no_markup (str : JsVal) :
  forallb (fun x => negb (isMarkupUnit x)) (escapeHtml str) = true
  /\ ampersandsEscaped (escapeHtml str) = true.
Proof.
  rewrite escapeHtml_flat_map. destruct (truthy str); [|split; reflexivity].
  induction (toStringJs str) as [|c s [IH1 IH2]]; [split; reflexivity|].
  cbn [flat_map]. destruct (escapeUnit_safe c (flat_map escapeUnit s))
    as [H1 H2].
  split.
  - rewrite forallb_app, H1, IH1. reflexivity.
  - rewrite H2. exact IH2.
Qed.

Lemma escapeUnit_inj_app (c d : N) (x y : jsstring) :
  escapeUnit c ++ x = escapeUnit d ++ y -> c = d /\ x = y.
Proof.
  unfold escapeUnit.
  destruct (N.eqb_spec c 38) as [->|Hc38];
    [|destruct (N.eqb_spec c 60) as [->|Hc60];
      [|destruct (N.eqb_spec c 62) as [->|Hc62];
        [|destruct (N.eqb_spec c 34) as [->|Hc34];
          [|destruct (N.eqb_spec c 39) as [->|Hc39]]]]];
    (destruct (N.eqb_spec d 38) as [->|Hd38];
     [|destruct (N.eqb_spec d 60) as [->|Hd60];
       [|destruct (N.eqb_spec d 62) as [->|Hd62];
         [|destruct (N.eqb_spec d 34) as [->|Hd34];
           [|destruct (N.eqb_spec d 39) as [->|Hd39]]]]]);
    intros H; try discriminate H;
    try (injection H as H; split; [reflexivity | exact H]);
    try (injection H as H1 H2; subst; contradiction);
    try (injection H as H1 H2; split; assumption).
Qed.

(** X2.  [escapeHtml] loses nothing: two texts with the same escaped
    form are the same text. *)
Theorem escapeHtml_injective (s t : jsstring) :
  escapeHtml (JString s) = escapeHtml (JString t) -> s = t.
Proof.
  rewrite !escapeHtml_one_pass. revert t.
  induction s as [|c s IH]; intros [|d t] H.
  - reflexivity.
  - cbn [flat_map] in H. exfalso. unfold escapeUnit in H.
    repeat match type of H with
           | context [if ?b then _ else _] => destruct b
           end; discriminate H.
  - cbn [flat_map] in H. exfalso. unfold escapeUnit in H.
    repeat match type of H with
           | context [if ?b then _ else _] => destruct b
           end; discriminate H.
  - cbn [flat_map] in H. apply escapeUnit_inj_app in H as [-> H].
    f_equal. apply IH, H.
Qed.

Lemma escapeHtml_injective_witness :
  lit "a<b" = lit "a<b".
Proof.
  apply (escapeHtml_injective (lit "a<b") (lit "a<b")). reflexivity.
Defined.

(** ** Stripping and truncating again *)

Lemma stripTags_lacks (s : jsstring) :
  lacks 60 s = true -> stripTags false s = s.
Proof.
  induction s as [|c s IH]; [reflexivity|].
  cbn [lacks forallb stripTags]. intros H.
  apply andb_true_iff in H as [Hc Hs]. apply negb_true_iff in Hc.
  rewrite Hc. f_equal. apply IH, Hs.
Qed.

Lemma stripHtml_lacks (s : jsstring) :
  lacks 60 s = true -> stripHtml (JString s) = s.
Proof.
  intros H. destruct s as [|c s]; [reflexivity|].
  unfold stripHtml. cbn [truthy negb toStringJs]. apply stripTags_lacks, H.
Qed.

Lemma lacks_stripHtml (str : JsVal) : lacks 60 (stripHtml str) = true.
Proof.
  unfold stripHtml. destruct (negb (truthy str)); [reflexivity|].
  apply lacks_stripTags.
Qed.

(** X3.  [stripHtml] leaves no [<] in its result, returns a text
    without [<] as it is, and so changes nothing when it is applied a
    second time. *)
Theorem stripHtml_idempotent (str : JsVal) :
  lacks 60 (stripHtml str) = true
  /\ stripHtml (JString (stripHtml str)) = stripHtml str
  /\ (forall s, lacks 60 s = true -> stripHtml (JString s) = s).
Proof.
  split; [apply lacks_stripHtml|]. split; [|apply stripHtml_lacks].
  apply stripHtml_lacks, lacks_stripHtml.
Qed.

Lemma stripHtml_idempotent_witness :
  stripHtml (JString (lit "2 > 1 & done")) = lit "2 > 1 & done".
Proof.
  apply (proj2 (proj2 (stripHtml_idempotent JUndefined))). reflexivity.
Defined.

Lemma trimStart_idem (s : jsstring) : trimStart (trimStart s) = trimStart s.
Proof.
  induction s as [|c s IH]; [reflexivity|].
  simpl. destruct (isWhite c) eqn:Hc; [exact IH|].
  simpl. rewrite Hc. reflexivity.
Qed.

Lemma trimEnd_idem (s : jsstring) : trimEnd (trimEnd s) = trimEnd s.
Proof.
  unfold trimEnd. rewrite rev_involutive, trimStart_idem. reflexivity.
Qed.

Lemma wellSpaced_true_false (s : jsstring) :
  wellSpaced true s = true -> wellSpaced false s = true.
Proof.
  destruct s as [|c s]; [reflexivity|]. simpl.
  destruct (isWhite c); [discriminate|trivial].
Qed.

Lemma collapseSpaces_wellSpaced (b : bool) (s : jsstring) :
  wellSpaced b s = true -> collapseSpaces b s = s.
Proof.
  revert b. induction s as [|c s IH]; intros b; [reflexivity|].
  simpl. destruct (isWhite c).
  - rewrite !andb_true_iff. intros [[Hb Hc] Hs].
    apply negb_true_iff in Hb. subst b. apply N.eqb_eq in Hc. subst c.
    f_equal. apply IH, Hs.
  - intros Hs. f_equal. apply IH, Hs.
Qed.

Lemma wellSpaced_snoc (b : bool) (s : jsstring) (x : N) :
  wellSpaced b s = true -> isWhite x = false ->
  wellSpaced b (s ++ [x]) = true.
Proof.
  intros Hs Hx. revert b Hs. induction s as [|c s IH]; intros b Hs.
  - simpl. rewrite Hx. reflexivity.
  - simpl in *. destruct (isWhite c).
    + rewrite !andb_true_iff in *. destruct Hs as [Hc Hs]. auto.
    + auto.
Qed.

(** A text without [<], well spaced and without white space at its ends
    is its own clean text. *)
Lemma cleanText_fixed (r : jsstring) :
  lacks 60 r = true -> wellSpaced true r = true -> trimEnd r = r ->
  cleanText (JString r) = r.
Proof.
  intros Hl Hw Ht. unfold cleanText.
  rewrite (stripHtml_lacks r Hl).
  rewrite (collapseSpaces_wellSpaced false r (wellSpaced_true_false r Hw)).
  unfold trim. rewrite (wellSpaced_trimStart_id r Hw). exact Ht.
Qed.

Lemma trimEnd_cleanText (str : JsVal) :
  trimEnd (cleanText str) = cleanText str.
Proof. unfold cleanText, trim. apply trimEnd_idem. Qed.

Lemma trim_firstn_facts (str : JsVal) (n : nat) :
  (n < length (cleanText str))%nat ->
  let c := trim (firstn n (cleanText str)) in
  lacks 60 c = true /\ wellSpaced true c = true /\ trimEnd c = c
  /\ (length c = n \/ S (length c) = n).
Proof.
  intros Hn c. repeat split.
  - apply lacks_trim, lacks_firstn, lacks_cleanText.
  - subst c. rewrite trim_firstn_cleanText by exact Hn.
    set (k := if _ =? 32 then _ else _).
    apply (wellSpaced_app true _ (skipn k (cleanText str))).
    rewrite firstn_skipn. apply wellSpaced_cleanText.
  - subst c. unfold trim. apply trimEnd_idem.
  - subst c. rewrite trim_firstn_cleanText by exact Hn.
    rewrite firstn_length_le; destruct (_ =? 32); lia.
Qed.

Lemma safeTruncate_facts (str : JsVal) (n : nat) :
  lacks 60 (safeTruncate str n) = true
  /\ wellSpaced true (safeTruncate str n) = true
  /\ trimEnd (safeTruncate str n) = safeTruncate str n
  /\ (length (safeTruncate str n) <= S n)%nat.
Proof.
  rewrite safeTruncate_cleanText.
  destruct (n <? length (cleanText str))%nat eqn:Hn.
  - apply Nat.ltb_lt in Hn.
    destruct (trim_firstn_facts str n Hn) as (Hl & Hw & Ht & Hlen).
    repeat split.
    + rewrite lacks_app, Hl. reflexivity.
    + apply wellSpaced_snoc; [exact Hw | reflexivity].
    + unfold ellipsis. rewrite trimEnd_snoc. reflexivity.
    + rewrite length_app. simpl. lia.
  - apply Nat.ltb_ge in Hn. repeat split.
    + apply lacks_cleanText.
    + apply wellSpaced_cleanText.
    + apply trimEnd_cleanText.
    + lia.
Qed.

(** X4.  A description is never longer than its budget plus one, and its
    only white space is single spaces between other code units: it has no
    tab or line break, no two spaces in a row, and no space at either
    end. *)
Theorem safeTruncate_shape (str : JsVal) (n : nat) :
  (length (safeTruncate str n) <= S n)%nat
  /\ wellSpaced true (safeTruncate str n) = true
  /\ trim (safeTruncate str n) = safeTruncate str n.
Proof.
  destruct (safeTruncate_facts str n) as (_ & Hw & Ht & Hlen).
  split; [exact Hlen|]. split; [exact Hw|].
  unfold trim. rewrite (wellSpaced_trimStart_id _ Hw). exact Ht.
Qed.

(** X5.  Truncating a description again with the same budget returns it
    unchanged. *)
Theorem safeTruncate_idempotent (str : JsVal) (n : nat) :
  safeTruncate (JString (safeTruncate str n)) n = safeTruncate str n.
Proof.
  destruct (safeTruncate_facts str n) as (Hl & Hw & Ht & _).
  rewrite (safeTruncate_cleanText (JString _)).
  rewrite (cleanText_fixed _ Hl Hw Ht).
  rewrite (safeTruncate_cleanText str n).
  destruct (n <? length (cleanText str))%nat eqn:Hn.
  - apply Nat.ltb_lt in Hn.
    destruct (trim_firstn_facts str n Hn) as (_ & Hcw & Hct & Hlen).
    set (c := trim (firstn n (cleanText str))) in *.
    rewrite length_app. cbn [length ellipsis].
    destruct Hlen as [Hlen | Hlen].
    + replace (n <? length c + 1)%nat with true
        by (symmetry; apply Nat.ltb_lt; lia).
      rewrite <- Hlen at 1. rewrite firstn_app, Nat.sub_diag, firstn_all.
      cbn [firstn]. rewrite app_nil_r.
      unfold trim. rewrite (wellSpaced_trimStart_id _ Hcw), Hct. reflexivity.
    + replace (n <? length c + 1)%nat with false
        by (symmetry; apply Nat.ltb_ge; lia).
      reflexivity.
  - rewrite Hn. reflexivity.
Qed.

(** ** The configured allowlist *)

Lemma trimStart_white (s : jsstring) :
  forallb isWhite s = true -> trimStart s = [].
Proof.
  induction s as [|c s IH]; [reflexivity|].
  simpl. intros H. apply andb_true_iff in H as [Hc Hs].
  rewrite Hc. apply IH, Hs.
Qed.

Lemma trim_white (s : jsstring) : forallb isWhite s = true -> trim s = [].
Proof. intros H. unfold trim. rewrite (trimStart_white s H). reflexivity. Qed.

Lemma splitOn_fields (P : N -> bool) (sep : N) (s : jsstring) :
  forallb (fun c => P c || (c =? sep)) s = true ->
  Forall (fun f => forallb P f = true) (splitOn sep s).
Proof.
  induction s as [|c s IH]; [repeat constructor|].
  cbn [forallb splitOn]. intros H. apply andb_true_iff in H as [Hc Hs].
  specialize (IH Hs). destruct (c =? sep).
  - constructor; [reflexivity | exact IH].
  - rewrite orb_false_r in Hc.
    destruct (splitOn sep s) as [|w ws]; [repeat constructor; cbn; rewrite Hc; reflexivity|].
    inversion IH as [|? ? Hw Hws]; subst.
    constructor; [cbn; rewrite Hc; exact Hw | exact Hws].
Qed.

(** X6.  When the allowlist variable holds nothing but commas and white
    space, no entry is configured, and then every host name passes the
    allowlist check: such a value switches the allowlist off. *)
Theorem RSS_DOMAIN_ALLOWLIST_blank (env : jsstring) :
  forallb (fun c => isWhite c || (c =? 44)) env = true ->
  RSS_DOMAIN_ALLOWLIST env = []
  /\ forall hostname, passesAllowlist (RSS_DOMAIN_ALLOWLIST env) hostname = true.
Proof.
  intros H.
  assert (E : RSS_DOMAIN_ALLOWLIST env = []).
  { unfold RSS_DOMAIN_ALLOWLIST.
    pose proof (splitOn_fields isWhite 44 env H) as Hf.
    induction Hf as [|f fs Hw _ IH]; [reflexivity|].
    cbn [List.map List.filter]. rewrite (trim_white f Hw). exact IH. }
  rewrite E. split; [reflexivity|]. reflexivity.
Qed.

Lemma RSS_DOMAIN_ALLOWLIST_blank_witness :
  RSS_DOMAIN_ALLOWLIST (lit " , ,") = []
  /\ passesAllowlist (RSS_DOMAIN_ALLOWLIST (lit " , ,")) (lit "evil.example")
     = true.
Proof.
  destruct (RSS_DOMAIN_ALLOWLIST_blank (lit " , ,") eq_refl) as [E H].
  split; [exact E | apply H].
Defined.












(** ** The validator on IPv4 hosts and on accepted inputs *)

Lemma v4Seg_last (s : jsstring) :
  v4Seg s = true -> exists x d, s = x ++ [d] /\ isDigit d = true.
Proof.
  destruct s as [|a [|b [|c [|e s]]]]; try discriminate; cbn [v4Seg].
  - intros H. exists [], a. auto.
  - intros H. apply andb_true_iff in H as [_ H]. exists [a], b. auto.
  - intros H. exists [a; b], c. split; [reflexivity|].
    unfold isDigit in *.
    repeat match type of H with
           | _ || _ = true => apply orb_true_iff in H as [H | H]
           | _ && _ = true => apply andb_true_iff in H as [? H]
           end;
      repeat match goal with
             | H : _ && _ = true |- _ => apply andb_true_iff in H as [? ?]
             | H : (_ <=? _) = true |- _ => apply N.leb_le in H
             | H : (_ =? _) = true |- _ => apply N.eqb_eq in H
             end;
      apply andb_true_iff; split; apply N.leb_le; lia.
Qed.

Lemma digit_end_not_local (x : jsstring) (d : N) :
  isDigit d = true ->
  let h := toLowerCase (x ++ [d]) in
  jsEqb h (lit "localhost") || endsWith h (lit ".localhost")
  || endsWith h (lit ".local") = false.
Proof.
  intros Hd h. subst h. unfold isDigit in Hd.
  apply andb_true_iff in Hd as [H1 H2]. apply N.leb_le in H1, H2.
  rewrite toLowerCase_app.
  assert (Hl : toLowerCase [d] = [d]).
  { cbn. unfold lowerUnit.
    destruct (N.leb_spec 65 d); [lia | reflexivity]. }
  rewrite Hl.
  change (lit ".localhost") with (lit ".localhos" ++ [116]).
  change (lit ".local") with (lit ".loca" ++ [108]).
  rewrite !endsWith_last_ne by lia.
  rewrite !orb_false_r. apply jsEqb_false.
  change (lit "localhost") with (lit "localhos" ++ [116]).
  intros H. apply app_inj_tail in H as [_ H]. lia.
Qed.

Lemma serializeIPv4_not_local (n : N) :
  let h := toLowerCase (serializeIPv4 n) in
  jsEqb h (lit "localhost") || endsWith h (lit ".localhost")
  || endsWith h (lit ".local") = false.
Proof.
  rewrite serializeIPv4_octets.
  destruct (v4Seg_last (decimal (n mod 256)))
    as (x & d & -> & Hd); [apply octet_facts, mod256_lt|].
  rewrite !app_assoc. apply digit_end_not_local, Hd.
Qed.

(** X8.  For a URL with scheme [http] or [https] whose host is an IPv4
    address, the validator rejects it as a private address exactly when
    the address lies in one of the seven blocks; any other IPv4 address is
    left to the allowlist, and is accepted when it passes. *)
Theorem validateRssUrl_ipv4 (newURL : jsstring -> option URL)
    (allowlist : list jsstring) (s : jsstring) (u : URL) (n : N) :
  newURL s = Some u ->
  scheme u = lit "http" \/ scheme u = lit "https" ->
  host u = Some (IPv4Host n) ->
  n < 2 ^ 32 ->
  validateRssUrl newURL allowlist s =
    if nonPublicIPv4 n
    then Rejected (lit "Private IP addresses are not allowed")
    else if passesAllowlist allowlist (serializeIPv4 n)
         then Accepted (toString u)
         else Rejected (lit "Hostname not in allowlist").
Proof.
  intros Hp Hs Hh Hn. unfold validateRssUrl. rewrite Hp.
  rewrite (protocol_http u Hs). cbn [negb]. cbv zeta.
  unfold hostname. rewrite Hh. cbn [serializeHost].
  rewrite (serializeIPv4_not_local n).
  rewrite (isPrivateIpLiteral_serializeIPv4 n Hn).
  destruct (nonPublicIPv4 n); [reflexivity|].
  destruct (passesAllowlist allowlist (serializeIPv4 n)); reflexivity.
Qed.

Lemma validateRssUrl_ipv4_witness :
  validateRssUrl basicURLParser [] (lit "http://8.8.8.8/feed.xml")
  = Accepted (lit "http://8.8.8.8/feed.xml")
  /\ validateRssUrl basicURLParser [] (lit "http://100.127.255.255/")
     = Rejected (lit "Private IP addresses are not allowed").
Proof.
  split.
  - exact (validateRssUrl_ipv4 basicURLParser [] (lit "http://8.8.8.8/feed.xml")
             (mkURL (lit "http") [] [] (Some (IPv4Host (ipv4 8 8 8 8))) None
                (lit "/feed.xml") None None)
             (ipv4 8 8 8 8) eq_refl (or_introl eq_refl) eq_refl eq_refl).
  - exact (validateRssUrl_ipv4 basicURLParser [] (lit "http://100.127.255.255/")
             (mkURL (lit "http") [] [] (Some (IPv4Host (ipv4 100 127 255 255)))
                None (lit "/") None None)
             (ipv4 100 127 255 255) eq_refl (or_introl eq_refl) eq_refl
             eq_refl).
Defined.

(** X9.  Whatever the parser and the allowlist, an input is accepted
    only if it parses to a URL whose scheme is [http] or [https], whose
    lowered host name is not [localhost] and does not end with
    [.localhost] or [.local], that is not taken for a private address,
    and that passes the allowlist; the string returned is the
    serialization of that URL, not the input. *)
Theorem validateRssUrl_accepted (newURL : jsstring -> option URL)
    (allowlist : list jsstring) (s c : jsstring) :
  validateRssUrl newURL allowlist s = Accepted c ->
  exists u,
    newURL s = Some u
    /\ c = toString u
    /\ (scheme u = lit "http" \/ scheme u = lit "https")
    /\ toLowerCase (hostname u) <> lit "localhost"
    /\ (forall sub, toLowerCase (hostname u) <> sub ++ lit ".localhost")
    /\ (forall sub, toLowerCase (hostname u) <> sub ++ lit ".local")
    /\ isPrivateIpLiteral (hostname u) = false
    /\ passesAllowlist allowlist (hostname u) = true.
Proof.
  unfold validateRssUrl.
  destruct (newURL s) as [u|]; [|discriminate].
  destruct (existsb _ _) eqn:Hproto; [|discriminate]. cbn [negb]. cbv zeta.
  destruct (_ || _ || _) eqn:Hlocal; [discriminate|].
  destruct (isPrivateIpLiteral _) eqn:Hpriv; [discriminate|].
  destruct (passesAllowlist _ _) eqn:Hpass; [|discriminate].
  cbn [negb]. intros [= <-]. exists u.
  apply orb_false_iff in Hlocal as [Hlocal Hl3].
  apply orb_false_iff in Hlocal as [Hl1 Hl2].
  repeat split; try reflexivity; try assumption.
  - cbn [existsb] in Hproto. rewrite orb_false_r in Hproto.
    unfold protocol in Hproto.
    apply orb_true_iff in Hproto as [H | H]; apply jsEqb_true in H.
    + left. change (lit "http:") with (lit "http" ++ lit ":") in H.
      apply app_inv_tail in H. exact H.
    + right. change (lit "https:") with (lit "https" ++ lit ":") in H.
      apply app_inv_tail in H. exact H.
  - apply jsEqb_false, Hl1.
  - intros sub H. rewrite H in Hl2.
    assert (endsWith (sub ++ lit ".localhost") (lit ".localhost") = true)
      by (apply endsWith_spec; eauto).
    congruence.
  - intros sub H. rewrite H in Hl3.
    assert (endsWith (sub ++ lit ".local") (lit ".local") = true)
      by (apply endsWith_spec; eauto).
    congruence.
Qed.

Lemma validateRssUrl_accepted_witness :
  exists u,
    basicURLParser (lit "HTTP://Example.com") = Some u
    /\ lit "http://example.com/" = toString u.
Proof.
  destruct (validateRssUrl_accepted basicURLParser []
              (lit "HTTP://Example.com") (lit "http://example.com/") eq_refl)
    as (u & Hu & Hc & _).
  exists u. split; assumption.
Defined.

(** ** More on the feed cache *)

(** X10.  A call of [getFeed] for one URL leaves the entry of every other
    fingerprint as it was: fetching or refreshing one feed neither
    creates, replaces nor ages the cached copy of another. *)
Theorem getFeed_other_key
    (stableHash : jsstring -> jsstring) (CACHE_TTL_MS : Z)
    (parseURL : list jsstring -> jsstring -> Js Feed)
    (rssUrl other : jsstring) (force : bool) (now : Z) (st : Server) :
  stableHash rssUrl <> stableHash other ->
  cache (snd (getFeed stableHash CACHE_TTL_MS parseURL rssUrl force now st))
    !! stableHash other
  = cache st !! stableHash other.
Proof.
  intros Hne. unfold getFeed.
  destruct (cached _ _ _ _); [reflexivity|].
  destruct (parseURL _ _); [|reflexivity].
  cbn [snd cache]. apply lookup_insert_ne, Hne.
Qed.

Lemma getFeed_other_key_witness :
  cache (snd (getFeed sampleHash 300000 upstreamUp
                (lit "https://example.org/rss") true 5000
                (snd (getFeed sampleHash 300000 upstreamUp sampleUrl false 1000
                        emptyServer))))
    !! sampleHash sampleUrl
  = Some (mkEntry 1000 sampleFeed).
Proof.
  rewrite (getFeed_other_key sampleHash 300000 upstreamUp
             (lit "https://example.org/rss") sampleUrl true 5000).
  - reflexivity.
  - discriminate.
Defined.

(** X11.  [getFeed] never removes an entry, and a call adds at most one:
    the map only grows, by the fingerprints of the URLs fetched with
    success. *)
Theorem getFeed_never_evicts
    (stableHash : jsstring -> jsstring) (CACHE_TTL_MS : Z)
    (parseURL : list jsstring -> jsstring -> Js Feed)
    (rssUrl : jsstring) (force : bool) (now : Z) (st : Server) :
  let st' :=
    snd (getFeed stableHash CACHE_TTL_MS parseURL rssUrl force now st) in
  (forall key, is_Some (cache st !! key) -> is_Some (cache st' !! key))
  /\ (size (cache st) <= size (cache st') <= S (size (cache st)))%nat.
Proof.
  intros st'. subst st'. unfold getFeed.
  destruct (cached _ _ _ _); [cbn; split; [auto | lia]|].
  destruct (parseURL _ _); [|cbn; split; [auto | lia]].
  cbn [snd cache]. split.
  - intros key Hk. rewrite lookup_insert_is_Some.
    destruct (decide (stableHash rssUrl = key)); auto.
  - destruct (cache st !! stableHash rssUrl) eqn:E.
    + rewrite map_size_insert_Some by eauto. lia.
    + rewrite map_size_insert_None by exact E. lia.
Qed.

(** X12.  With a time to live of zero or less, and a clock that does not
    run backwards, no entry is ever fresh: every call of [getFeed] calls
    the upstream, forced or not. *)
Theorem getFeed_ttl_nonpositive
    (stableHash : jsstring -> jsstring) (CACHE_TTL_MS : Z)
    (parseURL : list jsstring -> jsstring -> Js Feed)
    (rssUrl : jsstring) (force : bool) (now : Z) (st : Server) :
  (CACHE_TTL_MS <= 0)%Z ->
  (forall e, cache st !! stableHash rssUrl = Some e -> (at_ e <= now)%Z) ->
  calls (snd (getFeed stableHash CACHE_TTL_MS parseURL rssUrl force now st))
  = rssUrl :: calls st.
Proof.
  intros Httl Hclock.
  destruct (getFeed_cases stableHash CACHE_TTL_MS parseURL rssUrl force now st)
    as [(f & Hc & _) | (_ & Hcalls & _)]; [|exact Hcalls].
  exfalso. unfold cached in Hc.
  destruct (cache st !! stableHash rssUrl) as [e|]; [|discriminate].
  specialize (Hclock e eq_refl).
  destruct (Z.ltb_spec (now - at_ e) CACHE_TTL_MS); [lia|].
  rewrite andb_false_r in Hc. discriminate.
Qed.

Lemma getFeed_ttl_nonpositive_witness :
  calls (snd (getFeed sampleHash 0 upstreamUp sampleUrl false 1000
                (snd (getFeed sampleHash 0 upstreamUp sampleUrl false 1000
                        emptyServer))))
  = [sampleUrl; sampleUrl].
Proof.
  apply (getFeed_ttl_nonpositive sampleHash 0 upstreamUp sampleUrl false 1000).
  - lia.
  - intros e He. vm_compute in He. injection He as <-. simpl. lia.
Defined.

(** ** The number of records *)

Lemma slice0_length {A} (limit : Z) (items : list A) :
  (length (slice0 limit items) <= length items)%nat
  /\ ((0 <= limit)%Z -> (length (slice0 limit items) <= Z.to_nat limit)%nat)
  /\ ((limit < 0)%Z ->
      length (slice0 limit items) = (length items - Z.to_nat (- limit))%nat).
Proof.
  unfold slice0. destruct (Z.ltb_spec limit 0); rewrite length_firstn;
    repeat split; intros; lia.
Qed.

(** X13.  [episodes] returns at most [EP_LIMIT] records when the limit is
    not negative, none when it is zero, and never more than there are
    items; with a negative limit the last items are left out instead, as
    many as the limit says. *)
Theorem episodes_length (dateToISOString : JsVal -> Js jsstring)
    (EP_LIMIT : Z) (items : list JsVal) (out : list Episode) :
  episodes dateToISOString EP_LIMIT items = Ok out ->
  (length out <= length items)%nat
  /\ ((0 <= EP_LIMIT)%Z -> (length out <= Z.to_nat EP_LIMIT)%nat)
  /\ ((EP_LIMIT < 0)%Z ->
      (length out <= length items - Z.to_nat (- EP_LIMIT))%nat).
Proof.
  unfold episodes.
  destruct (mapIndexed _ 0 _) as [mapped|] eqn:Hmap; [|discriminate].
  cbn [mbind Js_bind]. intros [= <-].
  destruct (mapIndexed_Ok _ _ _ _ Hmap) as [Hlen _].
  pose proof (List.filter_length_le (fun e => truthy (ep_mediaUrl e)) mapped)
    as Hf.
  destruct (slice0_length EP_LIMIT items) as (H1 & H2 & H3).
  repeat split; intros; try specialize (H2 ltac:(assumption));
    try specialize (H3 ltac:(assumption)); lia.
Qed.

Lemma episodes_length_witness :
  exists out,
    episodes sampleDate 1 [itemHttp; itemHttp; itemBare] = Ok out
    /\ (length out <= 1)%nat.
Proof.
  destruct (episodes sampleDate 1 [itemHttp; itemHttp; itemBare]) as [out|]
    eqn:E; [|vm_compute in E; discriminate E].
  exists out. split; [reflexivity|].
  apply (episodes_length sampleDate 1 _ out E). lia.
Defined.

(** ** The handler of the API *)

Section HandlerProperties.
Variable newURL : jsstring -> option URL.
Variable allowlist : list jsstring.
Variable stableHash : jsstring -> jsstring.
Variable CACHE_TTL_MS : Z.
Variable parseURL : list jsstring -> jsstring -> Js Feed.
Variable dateToISOString : JsVal -> Js jsstring.
Variable EP_LIMIT : Z.
Variable DEFAULT_RSS_URL : jsstring.
Variable ALLOW_QUERY_RSS : bool.

Local Abbreviation handle :=
  (apiEpisodes newURL allowlist stableHash CACHE_TTL_MS parseURL
     dateToISOString EP_LIMIT DEFAULT_RSS_URL ALLOW_QUERY_RSS).
Local Abbreviation chosen :=
  (chosenRssUrl newURL allowlist DEFAULT_RSS_URL ALLOW_QUERY_RSS).

(** One request makes no upstream call, or one call for the URL that was
    chosen. *)
Lemma apiEpisodes_calls (req : Request) (st : Server) :
  (calls (snd (handle req st)) = calls st
   /\ forall key, cache (snd (handle req st)) !! key = cache st !! key)
  \/ exists rssUrl,
       chosen (query_rss req) = Accepted rssUrl
       /\ calls (snd (handle req st)) = rssUrl :: calls st.
Proof.
  unfold apiEpisodes.
  destruct (chosen (query_rss req)) as [rssUrl|reason] eqn:Hc;
    [|left; split; reflexivity].
  destruct (getFeed_cases stableHash CACHE_TTL_MS parseURL rssUrl
              (forceRefresh (query_refresh req)) (arrival req) st)
    as [(f & _ & Hget) | (_ & Hcalls & _)].
  - left. rewrite Hget.
    destruct (episodes _ _ _); split; reflexivity.
  - right. exists rssUrl. split; [reflexivity|].
    destruct (getFeed _ _ _ _ _ _ _) as [[f|e] st'] eqn:Hget;
      [destruct (episodes _ _ _)|]; exact Hcalls.
Qed.

Lemma chosenRssUrl_cases (rss : JsVal) (rssUrl : jsstring) :
  chosen rss = Accepted rssUrl ->
  rssUrl = DEFAULT_RSS_URL
  \/ (ALLOW_QUERY_RSS = true
      /\ validateRssUrl newURL allowlist (toStringJs rss) = Accepted rssUrl).
Proof.
  unfold chosenRssUrl. destruct ALLOW_QUERY_RSS; cbn [andb].
  - destruct (truthy rss); [auto|]. intros [= <-]. auto.
  - intros [= <-]. auto.
Qed.
End HandlerProperties.

(** X14.  However many requests the API handler serves and whatever
    their parameters, every URL passed to the upstream fetch is the
    default feed URL or, when the configuration allows the [rss]
    parameter, the canonical string of an input that [validateRssUrl]
    accepted; with the parameter switched off only the default is
    fetched. *)
Theorem serve_fetches_validated
    (newURL : jsstring -> option URL) (allowlist : list jsstring)
    (stableHash : jsstring -> jsstring) (CACHE_TTL_MS : Z)
    (parseURL : list jsstring -> jsstring -> Js Feed)
    (dateToISOString : JsVal -> Js jsstring) (EP_LIMIT : Z)
    (DEFAULT_RSS_URL : jsstring) (ALLOW_QUERY_RSS : bool)
    (reqs : list Request) (st : Server) :
  let fetchable url :=
    url = DEFAULT_RSS_URL
    \/ (ALLOW_QUERY_RSS = true
        /\ exists input,
             validateRssUrl newURL allowlist input = Accepted url) in
  Forall fetchable (calls st) ->
  Forall fetchable
    (calls (snd (serve newURL allowlist stableHash CACHE_TTL_MS parseURL
                   dateToISOString EP_LIMIT DEFAULT_RSS_URL ALLOW_QUERY_RSS
                   reqs st))).
Proof.
  intros fetchable. revert st.
  induction reqs as [|req reqs IH]; intros st Hst; [exact Hst|].
  cbn [serve].
  destruct (apiEpisodes _ _ _ _ _ _ _ _ _ req st) as [r st'] eqn:Hreq.
  specialize (IH st').
  destruct (serve _ _ _ _ _ _ _ _ _ reqs st') as [rs st''].
  cbn [snd] in *. apply IH.
  destruct (apiEpisodes_calls newURL allowlist stableHash CACHE_TTL_MS parseURL
              dateToISOString EP_LIMIT DEFAULT_RSS_URL ALLOW_QUERY_RSS req st)
    as [[Hsame _] | (rssUrl & Hc & Hcalls)];
    rewrite Hreq in *; cbn [snd] in *.
  - rewrite Hsame. exact Hst.
  - rewrite Hcalls. constructor; [|exact Hst].
    destruct (chosenRssUrl_cases _ _ _ _ _ _ Hc) as [-> | [Ha Hv]].
    + left. reflexivity.
    + right. split; [exact Ha|]. eauto.
Qed.

Lemma serve_fetches_validated_witness :
  Forall (fun url =>
            url = sampleUrl
            \/ (true = true
                /\ exists input,
                     validateRssUrl basicURLParser [] input = Accepted url))
    (calls (snd (serve basicURLParser [] sampleHash 300000 upstreamUp
                   sampleDate 100 sampleUrl true sampleRequests emptyServer))).
Proof.
  apply (serve_fetches_validated basicURLParser [] sampleHash 300000 upstreamUp
           sampleDate 100 sampleUrl true sampleRequests emptyServer).
  constructor.
Defined.

Example serve_sample :
  let '(responses, st) :=
    serve basicURLParser [] sampleHash 300000 upstreamUp sampleDate 100
      sampleUrl true sampleRequests emptyServer in
  List.map status responses = [200; 400; 200]
  /\ calls st = [sampleUrl; lit "https://sub.example.com/feed.xml"].
Proof. vm_compute. split; reflexivity. Qed.

(** X15.  When an entry exists for the chosen URL and its refresh, forced
    or due, fails, the API handler answers with status 500 and the fixed
    message, whatever the error was: the feed of the entry is not served in
    its place, though the entry stays in the map. *)
Theorem apiEpisodes_failed_refresh
    (newURL : jsstring -> option URL) (allowlist : list jsstring)
    (stableHash : jsstring -> jsstring) (CACHE_TTL_MS : Z)
    (parseURL : list jsstring -> jsstring -> Js Feed)
    (dateToISOString : JsVal -> Js jsstring) (EP_LIMIT : Z)
    (DEFAULT_RSS_URL : jsstring) (ALLOW_QUERY_RSS : bool)
    (req : Request) (st : Server) (rssUrl : jsstring) (e : CacheEntry)
    (err : Exn) :
  chosenRssUrl newURL allowlist DEFAULT_RSS_URL ALLOW_QUERY_RSS (query_rss req)
  = Accepted rssUrl ->
  cache st !! stableHash rssUrl = Some e ->
  forceRefresh (query_refresh req) = true
  \/ (CACHE_TTL_MS <= arrival req - at_ e)%Z ->
  parseURL (calls st) rssUrl = Throw err ->
  apiEpisodes newURL allowlist stableHash CACHE_TTL_MS parseURL dateToISOString
    EP_LIMIT DEFAULT_RSS_URL ALLOW_QUERY_RSS req st
  = (Json500 (lit "Error fetching/parsing RSS feed."),
     mkServer (cache st) (rssUrl :: calls st)).
Proof.
  intros Hc He Hdue Hfail. unfold apiEpisodes. rewrite Hc.
  unfold getFeed. rewrite He.
  assert (Hmiss : cached CACHE_TTL_MS (forceRefresh (query_refresh req))
                    (arrival req) (Some e) = None).
  { destruct Hdue as [-> | Hle]; [apply cached_force|].
    cbn. apply Z.ltb_ge in Hle. rewrite Hle, andb_false_r. reflexivity. }
  rewrite Hmiss, Hfail. reflexivity.
Qed.

Lemma apiEpisodes_failed_refresh_witness :
  let st1 :=
    snd (apiEpisodes basicURLParser [] sampleHash 300000 upstreamOnce sampleDate
           100 sampleUrl true (mkRequest JUndefined JUndefined 1000)
           emptyServer) in
  apiEpisodes basicURLParser [] sampleHash 300000 upstreamOnce sampleDate 100
    sampleUrl true (mkRequest JUndefined (JString (lit "1")) 2000) st1
  = (Json500 (lit "Error fetching/parsing RSS feed."),
     mkServer (cache st1) (sampleUrl :: calls st1)).
Proof.
  intros st1.
  apply (apiEpisodes_failed_refresh basicURLParser [] sampleHash 300000
           upstreamOnce sampleDate 100 sampleUrl true
           (mkRequest JUndefined (JString (lit "1")) 2000) st1 sampleUrl
           (mkEntry 1000 sampleFeed) (FetchError (lit "ECONNREFUSED"))).
  - reflexivity.
  - reflexivity.
  - left. reflexivity.
  - reflexivity.
Defined.

(** X16.  After a request that fetched its feed and was answered with
    status 200, a request for the same feed that does not ask for a
    refresh and arrives less than the time to live later gets the same
    answer, and neither the cache nor the upstream is touched. *)
Theorem apiEpisodes_repeat
    (newURL : jsstring -> option URL) (allowlist : list jsstring)
    (stableHash : jsstring -> jsstring) (CACHE_TTL_MS : Z)
    (parseURL : list jsstring -> jsstring -> Js Feed)
    (dateToISOString : JsVal -> Js jsstring) (EP_LIMIT : Z)
    (DEFAULT_RSS_URL : jsstring) (ALLOW_QUERY_RSS : bool)
    (req1 req2 : Request) (st st1 : Server) (r : Response) :
  apiEpisodes newURL allowlist stableHash CACHE_TTL_MS parseURL dateToISOString
    EP_LIMIT DEFAULT_RSS_URL ALLOW_QUERY_RSS req1 st = (r, st1) ->
  status r = 200 ->
  calls st1 <> calls st ->
  query_rss req2 = query_rss req1 ->
  forceRefresh (query_refresh req2) = false ->
  (arrival req2 - arrival req1 < CACHE_TTL_MS)%Z ->
  apiEpisodes newURL allowlist stableHash CACHE_TTL_MS parseURL dateToISOString
    EP_LIMIT DEFAULT_RSS_URL ALLOW_QUERY_RSS req2 st1 = (r, st1).
Proof.
  intros H1 Hok Hfetched Hrss Hforce Hlt.
  unfold apiEpisodes in *. rewrite Hrss.
  destruct (chosenRssUrl _ _ _ _ (query_rss req1)) as [rssUrl|reason];
    [|injection H1 as <- _; discriminate Hok].
  destruct (getFeed stableHash CACHE_TTL_MS parseURL rssUrl
              (forceRefresh (query_refresh req1)) (arrival req1) st)
    as [[f|err] st'] eqn:Hget;
    [|injection H1 as <- _; discriminate Hok].
  assert (st' = st1).
  { destruct (episodes _ _ _); injection H1 as _ <-; reflexivity. }
  subst st'.
  assert (Hcalls : calls st1 = rssUrl :: calls st).
  { destruct (getFeed_cases stableHash CACHE_TTL_MS parseURL rssUrl
                (forceRefresh (query_refresh req1)) (arrival req1) st)
      as [(g & _ & Hhit) | (_ & Hc & _)];
      rewrite Hget in *; [|exact Hc].
    injection Hhit as _ <-. contradiction. }
  pose proof (getFeed_fetch_stores _ _ _ _ _ _ _ _ _ Hget Hcalls) as He.
  rewrite Hforce.
  rewrite (getFeed_hit stableHash CACHE_TTL_MS parseURL rssUrl (arrival req2)
             st1 (mkEntry (arrival req1) f) He Hlt).
  cbn [feed].
  destruct (episodes _ _ _); injection H1 as <-; reflexivity.
Qed.

Lemma apiEpisodes_repeat_witness :
  let req1 := mkRequest (JString (lit "https://sub.example.com/feed.xml"))
                JUndefined 1000 in
  let req2 := mkRequest (JString (lit "https://sub.example.com/feed.xml"))
                (JString (lit "true")) 200000 in
  let '(r, st1) :=
    apiEpisodes basicURLParser [] sampleHash 300000 upstreamOnce sampleDate 100
      sampleUrl true req1 emptyServer in
  apiEpisodes basicURLParser [] sampleHash 300000 upstreamOnce sampleDate 100
    sampleUrl true req2 st1 = (r, st1).
Proof.
  intros req1 req2.
  destruct (apiEpisodes basicURLParser [] sampleHash 300000 upstreamOnce
              sampleDate 100 sampleUrl true req1 emptyServer) as [r st1] eqn:E.
  apply (apiEpisodes_repeat basicURLParser [] sampleHash 300000 upstreamOnce
           sampleDate 100 sampleUrl true req1 req2 emptyServer st1 r E).
  - vm_compute in E. injection E as <- _. reflexivity.
  - vm_compute in E. injection E as _ <-. discriminate.
  - reflexivity.
  - reflexivity.
  - simpl. lia.
Defined.

(** ** The player of the page script *)

Section PageScriptProperties.
Variable records : list Episode.

Lemma playIndex_cases (i : Z) (p : Player) :
  playIndex records i p = p
  \/ exists ep,
       (0 <= i < Z.of_nat (length records))%Z
       /\ nth_error records (Z.to_nat i) = Some ep
       /\ playIndex records i p =
            match ep_kind ep with
            | video => mkPlayer i (Some (ep_mediaUrl ep)) None
            | audio => mkPlayer i None (Some (ep_mediaUrl ep))
            end.
Proof.
  unfold playIndex.
  destruct (Z.ltb_spec i 0); [left; reflexivity|].
  destruct (Z.leb_spec (Z.of_nat (length records)) i); [left; reflexivity|].
  cbn [orb].
  destruct (nth_error records (Z.to_nat i)) as [ep|] eqn:E;
    [|left; reflexivity].
  right. exists ep. split; [lia|]. split; reflexivity.
Qed.

Lemma playIndex_ok (i : Z) (p : Player) :
  playerOk records p -> playerOk records (playIndex records i p).
Proof.
  intros Hp.
  destruct (playIndex_cases i p) as [-> | (ep & Hi & Hnth & ->)];
    [exact Hp|].
  assert (Hin : In ep records) by (eapply nth_error_In; exact Hnth).
  assert (Hne : records <> []) by (intros E; rewrite E in Hin; exact Hin).
  destruct (ep_kind ep) eqn:Hk; unfold playerOk; cbn;
    (split; [auto|]);
    (split; [intros u [= <-] || (intros u Hu; discriminate Hu); eauto|]);
    (split; [intros u [= <-] || (intros u Hu; discriminate Hu); eauto|]);
    (split; [intros _; exact Hi | intros E; contradiction]).
Qed.

Lemma step_ok (ev : Event) (p : Player) :
  playerOk records p -> playerOk records (step records ev p).
Proof.
  intros Hp. destruct ev; cbn [step]; try (apply playIndex_ok, Hp);
    try exact Hp.
  - destruct Hp as (H1 & H2 & H3 & H4 & H5). unfold playerOk. cbn.
    repeat split; try assumption.
    + specialize (H4 H). lia.
    + specialize (H4 H).
      assert (0 < length records)%nat by (destruct records; [contradiction|simpl; lia]).
      lia.
    + destruct (H5 H) as (Hc & _). rewrite H. simpl. lia.
    + destruct (H5 H) as (Hc & _). rewrite H. simpl. lia.
    + apply (proj1 (proj2 (H5 H))).
    + apply (proj2 (proj2 (H5 H))).
  - destruct Hp as (H1 & H2 & H3 & H4 & H5). unfold playerOk. cbn.
    repeat split; try assumption.
    + lia.
    + specialize (H4 H). lia.
    + lia.
    + destruct (H5 H) as (Hc & _). lia.
    + apply (proj1 (proj2 (H5 H))).
    + apply (proj2 (proj2 (H5 H))).
Qed.

Lemma run_ok (events : list Event) (p : Player) :
  playerOk records p -> playerOk records (run records events p).
Proof.
  unfold run. revert p.
  induction events as [|ev events IH]; intros p Hp; [exact Hp|].
  cbn [fold_left]. apply IH, step_ok, Hp.
Qed.
End PageScriptProperties.

(** ** The episode records of the page *)

Lemma toPageEpisode_of_toEpisode (dateToISOString : JsVal -> Js jsstring)
    (toLocaleDateString : JsVal -> jsstring) (it : JsVal) (idx : nat)
    (e : Episode) :
  toEpisode dateToISOString it idx = Ok e ->
  exists e', toPageEpisode toLocaleDateString it idx = Ok e'
             /\ sameEpisode e' e.
Proof.
  unfold toEpisode, toPageEpisode. js_bind_inv. intros [= <-].
  match goal with
  | H : (if truthy ?j then _ else _) = Ok _ |- _ =>
      destruct (truthy j); [|rewrite H]
  end; cbn [mbind Js_bind];
  (eexists; split; [reflexivity|]; repeat split).
Qed.

Lemma mapIndexed_same {A} (f g : A -> nat -> Js Episode) (k : nat)
    (items : list A) (out : list Episode) :
  (forall x i y, f x i = Ok y -> exists y', g x i = Ok y' /\ sameEpisode y' y) ->
  mapIndexed f k items = Ok out ->
  exists out', mapIndexed g k items = Ok out' /\ Forall2 sameEpisode out' out.
Proof.
  intros Hfg. revert k out.
  induction items as [|x items IH]; intros k out.
  - intros [= <-]. exists []. split; [reflexivity|constructor].
  - cbn [mapIndexed].
    destruct (f x k) as [a|] eqn:E; [|discriminate]. cbn [mbind Js_bind].
    destruct (mapIndexed f (S k) items) as [l|] eqn:E0; [|discriminate].
    cbn [mbind Js_bind]. intros [= <-].
    destruct (Hfg _ _ _ E) as (a' & -> & Ha).
    destruct (IH _ _ E0) as (l' & -> & Hl).
    exists (a' :: l'). split; [reflexivity|]. constructor; assumption.
Qed.

Lemma filter_same (l' l : list Episode) :
  Forall2 sameEpisode l' l ->
  Forall2 sameEpisode
    (List.filter (fun e => truthy (ep_mediaUrl e)) l')
    (List.filter (fun e => truthy (ep_mediaUrl e)) l).
Proof.
  induction 1 as [|a b l' l Hab Hl IH]; [constructor|].
  cbn [List.filter].
  assert (Hu : ep_mediaUrl a = ep_mediaUrl b) by apply Hab.
  rewrite Hu. destruct (truthy (ep_mediaUrl b)); [constructor|]; assumption.
Qed.

(** X17.  The page and [/api/episodes.json] list the same episodes:
    whenever the records of the API can be built from the items of a
    feed, so can the records of the page, and the two lists agree, entry
    by entry, on the id, the title, the media URL and type, the kind, the
    image URL and the duration. *)
Theorem pageEpisodes_of_episodes (dateToISOString : JsVal -> Js jsstring)
    (toLocaleDateString : JsVal -> jsstring) (EP_LIMIT : Z)
    (items : list JsVal) (out : list Episode) :
  episodes dateToISOString EP_LIMIT items = Ok out ->
  exists out',
    pageEpisodes toLocaleDateString EP_LIMIT items = Ok out'
    /\ Forall2 sameEpisode out' out.
Proof.
  unfold episodes, pageEpisodes.
  destruct (mapIndexed (toEpisode dateToISOString) 0 (slice0 EP_LIMIT items))
    as [mapped|] eqn:E; [|discriminate].
  cbn [mbind Js_bind]. intros [= <-].
  destruct (mapIndexed_same (toEpisode dateToISOString)
              (toPageEpisode toLocaleDateString) 0 _ _
              (fun x i y => toPageEpisode_of_toEpisode dateToISOString
                              toLocaleDateString x i y) E)
    as (mapped' & -> & Hsame).
  cbn [mbind Js_bind]. eexists. split; [reflexivity|].
  apply filter_same, Hsame.
Qed.

Lemma pageEpisodes_of_episodes_witness :
  exists out out',
    episodes sampleDate 10 [itemHttp; itemBare; itemHttp] = Ok out
    /\ pageEpisodes (fun _ => lit "May 01, 2024") 10
         [itemHttp; itemBare; itemHttp] = Ok out'
    /\ Forall2 sameEpisode out' out.
Proof.
  destruct (episodes sampleDate 10 [itemHttp; itemBare; itemHttp]) as [out|]
    eqn:E; [|vm_compute in E; discriminate E].
  destruct (pageEpisodes_of_episodes sampleDate (fun _ => lit "May 01, 2024")
              10 _ out E) as (out' & Hpage & Hsame).
  exists out, out'. split; [reflexivity|]. split; assumption.
Defined.

(** X18.  The page can be built from every sequence of raw items whose
    fields are absent or empty or of the type that the feed parser gives
    them, whatever their dates: a date that cannot be read makes
    [toISOString] throw in the API and does not make
    [toLocaleDateString] throw in the page. *)
Theorem pageEpisodes_total (toLocaleDateString : JsVal -> jsstring)
    (EP_LIMIT : Z) (items : list JsVal) :
  Forall (fun it => rawItem (fun _ => Ok []) it = true) items ->
  exists out, pageEpisodes toLocaleDateString EP_LIMIT items = Ok out.
Proof.
  intros Hraw. rewrite List.Forall_forall in Hraw. unfold pageEpisodes.
  destruct (mapIndexed_total (toPageEpisode toLocaleDateString) 0
              (slice0 EP_LIMIT items)) as [mapped ->].
  - intros x i Hx.
    destruct (toEpisode_raw (fun _ => Ok []) x i
                (Hraw x (slice0_In _ _ _ Hx))) as [e He].
    destruct (toPageEpisode_of_toEpisode _ toLocaleDateString _ _ _ He)
      as (e' & He' & _).
    eauto.
  - cbn [mbind Js_bind]. eauto.
Qed.

Lemma pageEpisodes_total_witness :
  (exists out,
     pageEpisodes (fun _ => lit "Invalid Date") 10
       [JObject [ ("isoDate"%string, JString (lit "yesterday"));
                  ("link"%string, JString (lit "https://example.com/1")) ]]
     = Ok out)
  /\ episodes sampleDate 10
       [JObject [ ("isoDate"%string, JString (lit "yesterday"));
                  ("link"%string, JString (lit "https://example.com/1")) ]]
     = Throw RangeError.
Proof.
  split; [|vm_compute; reflexivity].
  apply (pageEpisodes_total (fun _ => lit "Invalid Date") 10).
  repeat constructor.
Defined.

(** ** The player of the page script, from the first state *)

Lemma initialPlayer_ok (records : list Episode) :
  playerOk records initialPlayer.
Proof.
  unfold playerOk, initialPlayer. cbn.
  repeat split; try discriminate; auto; try lia.
  destruct records; [contradiction|]. cbn [length]. lia.
Qed.

(** X19.  Whatever keys are pressed, entries clicked and media ended,
    the player never has both elements loaded, what is loaded is the
    media URL of a record of the list and of the kind of the element,
    [currentIndex] is an index of the list when the list is not empty,
    and with an empty list nothing is ever loaded. *)
Theorem player_invariant (records : list Episode) (events : list Event) :
  playerOk records (run records events initialPlayer).
Proof. apply run_ok, initialPlayer_ok. Qed.

Lemma step_Ended_last (records : list Episode) (ep : Episode) (p : Player) :
  nth_error records (length records - 1) = Some ep ->
  currentIndex p = (Z.of_nat (length records) - 1)%Z ->
  step records Ended p =
    match ep_kind ep with
    | video => mkPlayer (Z.of_nat (length records) - 1)
                 (Some (ep_mediaUrl ep)) None
    | audio => mkPlayer (Z.of_nat (length records) - 1) None
                 (Some (ep_mediaUrl ep))
    end.
Proof.
  intros Hnth Hc.
  assert (Hlen : (0 < length records)%nat).
  { destruct records; [discriminate Hnth|cbn [length]; lia]. }
  cbn [step]. rewrite Hc.
  replace (Z.min (Z.of_nat (length records) - 1 + 1)
             (Z.of_nat (length records) - 1))
    with (Z.of_nat (length records) - 1)%Z by lia.
  unfold playIndex.
  destruct (Z.ltb_spec (Z.of_nat (length records) - 1) 0); [lia|].
  destruct (Z.leb_spec (Z.of_nat (length records))
              (Z.of_nat (length records) - 1)); [lia|].
  cbn [orb].
  replace (Z.to_nat (Z.of_nat (length records) - 1))
    with (length records - 1)%nat by lia.
  rewrite Hnth. reflexivity.
Qed.

(** X20.  The list does not wrap around and does not stop: when the
    media ends while [currentIndex] is the last index, the last record is
    loaded again, however often that happens. *)
Theorem player_ended_on_last (records : list Episode) (ep : Episode)
    (p : Player) (n : nat) :
  nth_error records (length records - 1) = Some ep ->
  currentIndex p = (Z.of_nat (length records) - 1)%Z ->
  run records (repeat Ended (S n)) p =
    match ep_kind ep with
    | video => mkPlayer (Z.of_nat (length records) - 1)
                 (Some (ep_mediaUrl ep)) None
    | audio => mkPlayer (Z.of_nat (length records) - 1) None
                 (Some (ep_mediaUrl ep))
    end.
Proof.
  intros Hnth. revert p. induction n as [|n IH]; intros p Hc.
  - cbn [repeat run fold_left]. apply step_Ended_last; assumption.
  - change (run records (repeat Ended (S (S n))) p)
      with (run records (repeat Ended (S n)) (step records Ended p)).
    apply IH. rewrite (step_Ended_last records ep p Hnth Hc).
    destruct (ep_kind ep); reflexivity.
Qed.

Lemma player_ended_on_last_witness :
  currentIndex
    (run sampleRecords (repeat Ended 3)
       (run sampleRecords [ArrowDown] initialPlayer)) = 1%Z.
Proof.
  destruct (nth_error sampleRecords (length sampleRecords - 1)) as [ep|]
    eqn:E; [|vm_compute in E; discriminate E].
  assert (Hc : currentIndex (run sampleRecords [ArrowDown] initialPlayer)
               = (Z.of_nat (length sampleRecords) - 1)%Z)
    by (vm_compute; reflexivity).
  rewrite (player_ended_on_last sampleRecords ep _ 2 E Hc).
  destruct (ep_kind ep); reflexivity.
Defined.

(** X21.  The player is never given an empty source: with the records
    of the page, whatever is loaded into the video or the audio element
    is a media URL that is not empty. *)
Theorem player_src_truthy (toLocaleDateString : JsVal -> jsstring)
    (EP_LIMIT : Z) (items : list JsVal) (out : list Episode)
    (events : list Event) (u : JsVal) :
  pageEpisodes toLocaleDateString EP_LIMIT items = Ok out ->
  videoSrc (run out events initialPlayer) = Some u
  \/ audioSrc (run out events initialPlayer) = Some u ->
  truthy u = true.
Proof.
  unfold pageEpisodes.
  destruct (mapIndexed _ 0 _) as [mapped|]; [|discriminate].
  cbn [mbind Js_bind]. intros [= <-] Hsrc.
  assert (Hok : playerOk (List.filter (fun e => truthy (ep_mediaUrl e)) mapped)
                  (run (List.filter (fun e => truthy (ep_mediaUrl e)) mapped)
                     events initialPlayer)).
  { apply run_ok, initialPlayer_ok. }
  destruct Hok as (_ & Hv & Ha & _).
  assert (Hep : exists ep,
             In ep (List.filter (fun e => truthy (ep_mediaUrl e)) mapped)
             /\ ep_mediaUrl ep = u).
  { destruct Hsrc as [H|H];
      [destruct (Hv u H) as (ep & Hin & _ & Hu)
      |destruct (Ha u H) as (ep & Hin & _ & Hu)]; eauto. }
  destruct Hep as (ep & Hin & <-).
  apply List.filter_In in Hin. apply Hin.
Qed.

Lemma player_src_truthy_witness :
  truthy (JString (lit "http://cdn.example.com/a.mp3")) = true.
Proof.
  apply (player_src_truthy (fun _ => lit "May 01, 2024") 10 [itemHttp]
           _ [Enter] _ eq_refl).
  right. reflexivity.
Defined.
